(** * CoffeeShop backend: the drinks API of [backend/src/api.py]

    A shallow embedding of the five route handlers, the Flask error
    handlers and the authorization gate in front of them, over an explicit
    model of the drinks table, followed by the properties the
    specification states about them. *)

From Stdlib Require Import List ZArith String Ascii Bool Lia.
From ExtLib Require Import Structures.Monad Structures.MonadExc.
Import ListNotations.
Import MonadNotation.
Local Open Scope string_scope.
Local Open Scope Z_scope.
Local Open Scope monad_scope.

(** ** JSON values

    The values [request.get_json()] hands to a handler and the values a
    handler passes to [json.dumps] / [jsonify].  Python's [None] is
    [JNull]; a [dict] is an association list in insertion order. *)

Set Warnings "-register-all".

Inductive json : Type :=
| JNull
| JBool (b : bool)
| JNum (n : Z)
| JStr (s : string)
| JArr (items : list json)
| JObj (fields : list (string * json)).

Fixpoint json_eq_dec (x y : json) {struct x} : {x = y} + {x <> y}.
Proof.
  decide equality.
  - apply bool_dec.
  - apply Z.eq_dec.
  - apply string_dec.
  - apply (list_eq_dec json_eq_dec).
  - apply list_eq_dec. decide equality. apply string_dec.
Defined.

Definition json_eqb (x y : json) : bool :=
  if json_eq_dec x y then true else false.

(** [d.get(key)] on a dict: the first binding of [key], [None] without one. *)
Fixpoint dict_get (key : string) (fields : list (string * json)) : option json :=
  match fields with
  | [] => None
  | (k, v) :: rest => if String.eqb k key then Some v else dict_get key rest
  end.

(** Python's JSON codec is a collaborator of the program: the text
    [json.dumps] writes is represented by the value it denotes, which is what
    [json.loads] reads back. *)
Inductive text : Type := Text (denotes : json).

Definition json_dumps (j : json) : text := Text j.
Definition json_loads (t : text) : json := let 'Text j := t in j.

(** ** The drinks table *)

(** Modelled from the spec: a row of the [Drink] model that [api.py]
    imports from [database/models.py].  Section 3: a numeric primary key, a
    title, and the recipe stored as serialized structured text.  The title
    is the value the handler assigns, null when the body has none. *)
Record Drink : Type := { id : Z; title : json; recipe : text }.

(** The store: the rows in insertion order, and how many more accesses the
    database answers before it stops answering ([None]: it never stops). *)
Record Store : Type := { rows : list Drink; uptime : option nat }.

(** ** Exceptions and the monad of a request *)

(** The HTTP errors the program raises or registers a handler for:
    [BadRequest] (400) of a body that cannot be parsed, [NotFound] (404) of
    [abort(404)], [UnprocessableEntity] (422). *)
Inductive http_error : Type :=
| BadRequest
| NotFound
| UnprocessableEntity.

Inductive exn : Type :=
| HTTPException (e : http_error)
| AuthError (error : json) (status_code : Z)
| AttributeError
| TypeError
| KeyError
| OperationalError                          (* the database does not answer *)
| IntegrityError                            (* a constraint rejects the write *)
| MultipleResultsFound.

Inductive Result (A : Type) : Type :=
| Ok (a : A)
| Raise (e : exn).
Arguments Ok {A} a.
Arguments Raise {A} e.

#[export] Instance Monad_Result : Monad Result :=
  {| ret := fun _ a => Ok a;
     bind := fun _ _ r k => match r with Ok a => k a | Raise e => Raise e end |}.

(** A computation reads and writes the store and returns or raises; what it
    wrote before raising stays written. *)
Definition M (A : Type) : Type := Store -> Result A * Store.

#[export] Instance Monad_M : Monad M :=
  {| ret := fun _ a s => (Ok a, s);
     bind := fun _ _ m k s =>
       match m s with
       | (Ok a, s') => k a s'
       | (Raise e, s') => (Raise e, s')
       end |}.

(** [catch body handler] is [try: body except e: handler e]. *)
#[export] Instance Exc_M : MonadExc exn M :=
  {| raise := fun _ e s => (Raise e, s);
     catch := fun _ body handler s =>
       match body s with
       | (Ok a, s') => (Ok a, s')
       | (Raise e, s') => handler e s'
       end |}.

Definition lift {A : Type} (r : Result A) : M A := fun s => (r, s).

(** A comprehension [[f x for x in l]] whose [f] may raise. *)
Fixpoint comprehension {A B : Type} (f : A -> Result B) (l : list A) : Result (list B) :=
  match l with
  | [] => Ok []
  | x :: rest =>
      match f x with
      | Raise e => Raise e
      | Ok y =>
          match comprehension f rest with
          | Raise e => Raise e
          | Ok ys => Ok (y :: ys)
          end
      end
  end.

(** ** HTTP responses *)

Inductive body : Type :=
| Json (j : json)        (* [json.dumps(data)] or [jsonify(data)] *)
| ErrorPage.             (* the page Flask renders for an error without a handler *)

Record response : Type := { status : Z; content : body }.

Definition respond (data : json) (code : Z) : response :=
  {| status := code; content := Json data |}.

(** ** Python accessors on JSON values *)

(** [data.get(key)]: only a dict has [get]; a missing key gives [None]. *)
Definition py_get (data : json) (key : string) : Result json :=
  match data with
  | JObj fields =>
      Ok (match dict_get key fields with Some v => v | None => JNull end)
  | _ => Raise AttributeError
  end.

(** The body of a request as it reaches a view: the value that
    [request.get_json()] parses it to, or a body that it cannot parse. *)
Inductive request_body : Type :=
| Parsed (data : json)
| Unparsable.

(** [request.get_json()]: the parsed value, or [BadRequest]. *)
Definition get_json (sent : request_body) : Result json :=
  match sent with
  | Parsed data => Ok data
  | Unparsable => Raise (HTTPException BadRequest)
  end.

(** [r[key]]: a missing key raises, and only a dict takes a string key. *)
Definition subscript (r : json) (key : string) : Result json :=
  match r with
  | JObj fields =>
      match dict_get key fields with Some v => Ok v | None => Raise KeyError end
  | _ => Raise TypeError
  end.

(** ** The two projections *)

(** Modelled from the spec: [Drink.long()] of [database/models.py].  Section
    3, detailed projection: the id, the title and the full ingredient data;
    section 4.2: the stored recipe parsed back.  It is defined on every
    stored recipe: an update without a recipe answers 200 with the
    collection (section 8, property 10). *)
Definition Drink_long (d : Drink) : json :=
  JObj [("id", JNum (id d)); ("title", title d); ("recipe", json_loads (recipe d))].

(** Modelled from the spec: what [Drink.short()] of [database/models.py]
    keeps of the ingredient entry [r]; section 3: [{color, parts}], the
    name omitted. *)
Definition short_entry (r : json) : Result json :=
  color <- subscript r "color" ;;
  parts <- subscript r "parts" ;;
  ret (JObj [("color", color); ("parts", parts)]).

(** Modelled from the spec: [Drink.short()] of [database/models.py].  Section
    3, brief projection: [{id, title, recipe: [{color, parts}]}], built from
    the entries of the stored sequence; a stored recipe that is not a
    sequence has no entries to go through and raises. *)
Definition Drink_short (d : Drink) : Result json :=
  match json_loads (recipe d) with
  | JArr entries =>
      short_recipe <- comprehension short_entry entries ;;
      ret (JObj [("id", JNum (id d)); ("title", title d); ("recipe", JArr short_recipe)])
  | _ => Raise TypeError
  end.

(** ** The failures of the authorization gate (section 4.1) *)

Inductive failure : Type :=
| MalformedHeader
| UnknownKey
| InvalidToken
| MissingPermissionsClaim
| InsufficientScope.

(** The segments of [s] between the occurrences of [sep]. *)
Fixpoint split_on (sep : ascii) (s : string) : list string :=
  match s with
  | EmptyString => [EmptyString]
  | String c rest =>
      if Ascii.eqb c sep then EmptyString :: split_on sep rest
      else match split_on sep rest with
           | [] => [String c EmptyString]
           | w :: ws => String c w :: ws
           end
  end.

(** ** Error handling *)

Definition unprocessable : response :=
  respond (JObj [("success", JBool false); ("error", JNum 422);
                 ("message", JStr "unprocessable")]) 422.

Definition not_found : response :=
  respond (JObj [("success", JBool false); ("error", JNum 404);
                 ("message", JStr "Resource not found")]) 404.

Definition bad_request : response :=
  respond (JObj [("success", JBool false); ("error", JNum 400);
                 ("message", JStr "Bad request")]) 400.

Definition handle_auth_error (error : json) (status_code : Z) : response :=
  {| status := status_code; content := Json error |}.

(** Flask's handling of what a view raises: the registered handlers, and
    its own page with status 500 for an exception that is not an HTTP
    one. *)
Definition errorhandler (e : exn) : response :=
  match e with
  | HTTPException UnprocessableEntity => unprocessable
  | HTTPException NotFound => not_found
  | HTTPException BadRequest => bad_request
  | AuthError error status_code => handle_auth_error error status_code
  | _ => {| status := 500; content := ErrorPage |}
  end.

Definition dispatch (view : M response) (s : Store) : response * Store :=
  match view s with
  | (Ok r, s') => (r, s')
  | (Raise e, s') => (errorhandler e, s')
  end.

(** ** The authorization gate *)

Section Gate.

(** [api.py] imports [AuthError] and [requires_auth] from [auth/auth.py].
    The key set, the verification of signature and claims, the permission
    claim of a verified payload and the code and text each failure carries
    are that module's and its collaborators': parameters. *)
Variable key : Type.
Variable trusted_key : string -> option key.
Variable verify : key -> string -> option json.
Variable permissions_of : json -> option (list string).
Variable code_of : failure -> json.
Variable description_of : failure -> string.

(** Modelled from the spec: the [error] an [AuthError] of [auth/auth.py]
    carries; section 4.1: [{success: false, error: <code>, description:
    <text>}]. *)
Definition envelope (k : failure) : json :=
  JObj [("success", JBool false); ("error", code_of k);
        ("description", JStr (description_of k))].

(** Modelled from the spec: the [AuthError] that [auth/auth.py] raises for
    a failure; section 4.1: 401 for the header, the key and the
    verification, 400 for the missing claim, 403 for the scope. *)
Definition auth_error (k : failure) : exn :=
  AuthError (envelope k)
            (match k with
             | MalformedHeader | UnknownKey | InvalidToken => 401
             | MissingPermissionsClaim => 400
             | InsufficientScope => 403
             end).

(** Modelled from the spec: the header parsing of [auth/auth.py]; section
    4.1, step 1: the token of a header of the form [Bearer <token>], none
    for an absent or empty header, another scheme, or more segments. *)
Definition bearer_token (authorization : option string) : option string :=
  match authorization with
  | None => None
  | Some header =>
      match split_on " " header with
      | [scheme; token] =>
          if String.eqb scheme "Bearer" && negb (String.eqb token "")
          then Some token else None
      | _ => None
      end
  end.

(** Modelled from the spec: the checks of [auth/auth.py]; section 4.1,
    steps 1 to 6 of [authorize]. *)
Definition authorize (authorization : option string) (required : string) : Result json :=
  match bearer_token authorization with
  | None => Raise (auth_error MalformedHeader)
  | Some token =>
      match trusted_key token with
      | None => Raise (auth_error UnknownKey)
      | Some k =>
          match verify k token with
          | None => Raise (auth_error InvalidToken)
          | Some payload =>
              match permissions_of payload with
              | None => Raise (auth_error MissingPermissionsClaim)
              | Some granted =>
                  if existsb (String.eqb required) granted then Ok payload
                  else Raise (auth_error InsufficientScope)
              end
          end
      end
  end.

(** Modelled from the spec: the decorator [requires_auth] of
    [auth/auth.py]; section 2: the gate produces a claims context, on which
    the view runs, or a rejection. *)
Definition requires_auth (permission : string) (f : json -> M response)
           (authorization : option string) : M response :=
  payload <- lift (authorize authorization permission) ;;
  f payload.

(** The failures of the gate by their causes, in the order of the steps
    of section 4.1. *)
Inductive fails_with (authorization : option string) (required : string)
  : failure -> Prop :=
| header_fails :
    bearer_token authorization = None ->
    fails_with authorization required MalformedHeader
| key_fails : forall token,
    bearer_token authorization = Some token ->
    trusted_key token = None ->
    fails_with authorization required UnknownKey
| token_fails : forall token k,
    bearer_token authorization = Some token ->
    trusted_key token = Some k ->
    verify k token = None ->
    fails_with authorization required InvalidToken
| claim_fails : forall token k payload,
    bearer_token authorization = Some token ->
    trusted_key token = Some k ->
    verify k token = Some payload ->
    permissions_of payload = None ->
    fails_with authorization required MissingPermissionsClaim
| scope_fails : forall token k payload granted,
    bearer_token authorization = Some token ->
    trusted_key token = Some k ->
    verify k token = Some payload ->
    permissions_of payload = Some granted ->
    ~ In required granted ->
    fails_with authorization required InsufficientScope.

End Gate.

(** ** Sample data *)

(** A reading of path segments as decimal numerals. *)
Definition digit (c : ascii) : option Z :=
  let n := Z.of_nat (nat_of_ascii c) - 48 in
  if (0 <=? n) && (n <=? 9) then Some n else None.

Fixpoint digits (acc : Z) (s : string) : option Z :=
  match s with
  | EmptyString => Some acc
  | String c rest =>
      match digit c with
      | Some n => digits (10 * acc + n) rest
      | None => None
      end
  end.

Definition decimal (s : string) : option Z :=
  match s with
  | EmptyString => None
  | _ => digits 0 s
  end.

Definition ingredient (name color : string) (parts : Z) : json :=
  JObj [("name", JStr name); ("color", JStr color); ("parts", JNum parts)].

Definition espresso_body : json :=
  JObj [("title", JStr "Espresso");
        ("recipe", JArr [ingredient "espresso" "brown" 1])].

Definition latte_body : json :=
  JObj [("title", JStr "Latte");
        ("recipe", JArr [ingredient "espresso" "brown" 1; ingredient "milk" "white" 3])].

Definition mocha_body : json :=
  JObj [("title", JStr "Mocha");
        ("recipe", JArr [ingredient "chocolate" "black" 1; ingredient "milk" "white" 2])].

(** A body whose one ingredient carries a field more than the three of the
    data model. *)
Definition cortado_body : json :=
  JObj [("title", JStr "Cortado");
        ("recipe", JArr [JObj [("name", JStr "milk"); ("color", JStr "white");
                               ("parts", JNum 1); ("note", JStr "steamed")]])].

Definition espresso : Drink :=
  {| id := 1; title := JStr "Espresso";
     recipe := json_dumps (JArr [ingredient "espresso" "brown" 1]) |}.

Definition latte : Drink :=
  {| id := 2; title := JStr "Latte";
     recipe := json_dumps (JArr [ingredient "espresso" "brown" 1;
                                 ingredient "milk" "white" 3]) |}.

Definition empty_store : Store := {| rows := []; uptime := None |}.

(** The menu of two drinks, with the database up, down, and answering one
    access more. *)
Definition open_store : Store := {| rows := [espresso; latte]; uptime := None |}.
Definition closed_store : Store := {| rows := [espresso; latte]; uptime := Some 0%nat |}.
Definition closing_store : Store := {| rows := [espresso; latte]; uptime := Some 1%nat |}.

(** A gate that trusts every key, reads the token as the payload and grants
    the barista the detail listing only. *)
Definition barista_permissions (payload : json) : option (list string) :=
  match payload with
  | JStr "barista" => Some ["get:drinks-detail"]
  | _ => None
  end.

Definition failure_code (k : failure) : json :=
  match k with
  | MalformedHeader => JStr "invalid_header"
  | UnknownKey => JStr "unknown_key"
  | InvalidToken => JStr "invalid_token"
  | MissingPermissionsClaim => JStr "invalid_claims"
  | InsufficientScope => JStr "unauthorized"
  end.

(** A table with a drink that was created without title and recipe. *)
Definition unnamed : Drink :=
  {| id := 2; title := JNull; recipe := json_dumps JNull |}.

Definition unnamed_store : Store := {| rows := [espresso; unnamed]; uptime := None |}.

(** The permissions of the manager: every one the routes ask for. *)
Definition manager_permissions (payload : json) : option (list string) :=
  match payload with
  | JStr "manager" =>
      Some ["get:drinks-detail"; "post:drinks"; "patch:drinks"; "delete:drinks"]
  | _ => None
  end.

Section Api.

Set Default Proof Using "Type".

(** The route hands [drink_id] over as the text of the path segment, and
    the database compares the integer key column with it.  The reading of
    a segment as an integer is the database's: a parameter. *)
Variable id_of_path : string -> option Z.

(** *** Store access *)

(** Modelled from the spec: the database behind the [Drink] model of
    [database/models.py].  Every access goes to it, and it answers or
    fails; a failed access leaves the rows as they were (section 5). *)
Definition access : M unit := fun s =>
  match uptime s with
  | None => (Ok tt, s)
  | Some O => (Raise OperationalError, s)
  | Some (S n) => (Ok tt, {| rows := rows s; uptime := Some n |})
  end.

Definition get_rows : M (list Drink) := fun s => (Ok (rows s), s).
Definition put_rows (l : list Drink) : M unit := fun s =>
  (Ok tt, {| rows := l; uptime := uptime s |}).

(** Modelled from the spec: full scan, [Drink.query.all()]. *)
Definition Drink_query_all : M (list Drink) :=
  access ;; get_rows.

Definition matches (drink_id : string) (d : Drink) : bool :=
  match id_of_path drink_id with
  | Some n => id d =? n
  | None => false
  end.

(** Modelled from the spec: lookup by id, [Drink.query.filter_by(id=drink_id)]. *)
Definition Drink_query_filter_by_id (drink_id : string) : M (list Drink) :=
  access ;;
  l <- get_rows ;;
  ret (filter (matches drink_id) l).

(** SQLAlchemy's [one_or_none()]. *)
Definition one_or_none (found : list Drink) : M (option Drink) :=
  match found with
  | [] => ret None
  | [d] => ret (Some d)
  | _ => raise MultipleResultsFound
  end.

(** Modelled from the spec: the key the database gives a new row; section
    3: a numeric key assigned by the store on creation. *)
Definition fresh_id (l : list Drink) : Z :=
  1 + fold_right Z.max 0 (map id l).

(** Modelled from the spec: title uniqueness is enforced by the store
    (section 4.2).  A null title is the absence of a title and clashes with
    nothing: every update that omits the title stores null (section 4.2). *)
Definition title_taken (t : json) (l : list Drink) : bool :=
  match t with
  | JNull => false
  | _ => existsb (fun d => json_eqb (title d) t) l
  end.

Definition other_than (n : Z) (d : Drink) : bool := negb (id d =? n).

(** Modelled from the spec: [Drink.insert()], a new row under a new key,
    refused when the title is taken. *)
Definition Drink_insert (t : json) (r : text) : M unit :=
  access ;;
  l <- get_rows ;;
  if title_taken t l then raise IntegrityError
  else put_rows (l ++ [{| id := fresh_id l; title := t; recipe := r |}]).

(** Modelled from the spec: [Drink.update()], the row of that key
    overwritten, refused when another row has the title. *)
Definition Drink_update (d : Drink) : M unit :=
  access ;;
  l <- get_rows ;;
  if title_taken (title d) (filter (other_than (id d)) l) then raise IntegrityError
  else put_rows (map (fun x => if id x =? id d then d else x) l).

(** Modelled from the spec: [Drink.delete()], the row of that key removed. *)
Definition Drink_delete (d : Drink) : M unit :=
  access ;;
  l <- get_rows ;;
  put_rows (filter (other_than (id d)) l).

(** *** Routes *)

Definition store_error (message : string) : response :=
  respond (JObj [("success", JBool false); ("error", JStr message)]) 500.

(** [GET /drinks] *)
Definition get_drinks : M response :=
  catch
    (drinks <- Drink_query_all ;;
     shorts <- lift (comprehension Drink_short drinks) ;;
     let data := JObj [("success", JBool true); ("drinks", JArr shorts)] in
     ret (respond data 200))
    (fun _ => ret (store_error "An error occurred")).

(** [GET /drinks-detail] *)
Definition get_drink_details (jwt : json) : M response :=
  catch
    (drinks <- Drink_query_all ;;
     let data := JObj [("success", JBool true);
                       ("drinks", JArr (map Drink_long drinks))] in
     ret (respond data 200))
    (fun _ => ret (store_error "An error occurred")).

(** [POST /drinks]; [sent] is the body of the request. *)
Definition post_drink (jwt : json) (sent : request_body) : M response :=
  data <- lift (get_json sent) ;;
  name <- lift (py_get data "title") ;;
  recipe <- lift (py_get data "recipe") ;;
  catch
    (Drink_insert name (json_dumps recipe) ;;
     drinks <- Drink_query_all ;;
     ret (respond (JObj [("success", JBool true);
                         ("drinks", JArr (map Drink_long drinks))]) 200))
    (fun _ => ret (store_error "An error occured")).

(** [PATCH /drinks/<drink_id>] *)
Definition update_drink (jwt : json) (drink_id : string) (sent : request_body)
  : M response :=
  found <- Drink_query_filter_by_id drink_id ;;
  drink <- one_or_none found ;;
  data <- lift (get_json sent) ;;
  match drink with
  | None => raise (HTTPException NotFound)
  | Some drink =>
      title <- lift (py_get data "title") ;;
      recipe <- lift (py_get data "recipe") ;;
      catch
        (let drink := {| id := id drink; title := title; recipe := json_dumps recipe |} in
         Drink_update drink ;;
         drinks <- Drink_query_all ;;
         ret (respond (JObj [("success", JBool true);
                             ("drinks", JArr (map Drink_long drinks))]) 200))
        (fun _ => ret (store_error "An error occured"))
  end.

(** [DELETE /drinks/<drink_id>] *)
Definition delete_drink (jwt : json) (drink_id : string) : M response :=
  found <- Drink_query_filter_by_id drink_id ;;
  drink <- one_or_none found ;;
  match drink with
  | None => raise (HTTPException NotFound)
  | Some drink =>
      catch
        (Drink_delete drink ;;
         ret (respond (JObj [("success", JBool true);
                             ("delete", JStr drink_id)]) 200))
        (fun _ => ret (store_error "An error occured"))
  end.

(** *** Requests and reachable stores *)

Inductive request : Type :=
| GetDrinks
| GetDrinkDetails (jwt : json)
| PostDrink (jwt : json) (sent : request_body)
| UpdateDrink (jwt : json) (drink_id : string) (sent : request_body)
| DeleteDrink (jwt : json) (drink_id : string).

Definition view_of (r : request) : M response :=
  match r with
  | GetDrinks => get_drinks
  | GetDrinkDetails jwt => get_drink_details jwt
  | PostDrink jwt sent => post_drink jwt sent
  | UpdateDrink jwt drink_id sent => update_drink jwt drink_id sent
  | DeleteDrink jwt drink_id => delete_drink jwt drink_id
  end.

(** The stores the program can be in: it starts on an empty table, serves
    requests one after the other, and the database may stop or resume
    answering at any time. *)
Inductive reachable : Store -> Prop :=
| reachable_empty : forall u, reachable {| rows := []; uptime := u |}
| reachable_outage : forall s u,
    reachable s -> reachable {| rows := rows s; uptime := u |}
| reachable_request : forall s r,
    reachable s -> reachable (snd (dispatch (view_of r) s)).

(** The titles of the drinks that have one. *)
Definition has_title (t : json) : bool :=
  match t with
  | JNull => false
  | _ => true
  end.

Definition titles (l : list Drink) : list json := filter has_title (map title l).

Definition unique_titles (l : list Drink) : Prop := NoDup (titles l).
Definition unique_ids (l : list Drink) : Prop := NoDup (map id l).

(** The database answers the next [n] accesses. *)
Definition answers (n : nat) (s : Store) : Prop :=
  match uptime s with
  | None => True
  | Some k => (n <= k)%nat
  end.

(** *** Vocabulary of the properties *)

Definition creates_or_updates (r : request) : bool :=
  match r with
  | PostDrink _ _ | UpdateDrink _ _ _ => true
  | _ => false
  end.

(** The drinks a response lists, none when it has no [drinks] array. *)
Definition listed (resp : response) : list json :=
  match content resp with
  | Json (JObj fields) =>
      match dict_get "drinks" fields with
      | Some (JArr items) => items
      | _ => []
      end
  | _ => []
  end.

Definition id_field (drink : json) : option json :=
  match drink with
  | JObj fields => dict_get "id" fields
  | _ => None
  end.

Definition lists_id (n : Z) (resp : response) : Prop :=
  exists drink, In drink (listed resp) /\ id_field drink = Some (JNum n).

Definition not_name (field : string * json) : bool :=
  negb (String.eqb (fst field) "name").

(** A recipe entry with its [name] field removed. *)
Definition drop_name (entry : json) : json :=
  match entry with
  | JObj fields => JObj (filter not_name fields)
  | other => other
  end.

(** A listed drink with the [name] field removed from each entry of its
    recipe, everything else as it is. *)
Definition without_names (drink : json) : json :=
  match drink with
  | JObj fields =>
      JObj (map (fun field =>
                   if String.eqb (fst field) "recipe" then
                     match snd field with
                     | JArr entries => (fst field, JArr (map drop_name entries))
                     | _ => field
                     end
                   else field) fields)
  | other => other
  end.

(** An entry that holds, besides a name, the color and then the parts and
    nothing else; a recipe that is a sequence of such entries. *)
Definition plain_entry (entry : json) : bool :=
  match entry with
  | JObj fields =>
      if list_eq_dec string_dec (map fst (filter not_name fields)) ["color"; "parts"]
      then true else false
  | _ => false
  end.

Definition plain_recipe (r : json) : bool :=
  match r with
  | JArr entries => forallb plain_entry entries
  | _ => false
  end.

(** How one request changes the table. *)
Inductive row_step (l : list Drink) : list Drink -> Prop :=
| rows_kept : row_step l l
| row_inserted : forall t r,
    title_taken t l = false ->
    row_step l (l ++ [{| id := fresh_id l; title := t; recipe := r |}])
| row_overwritten : forall d,
    title_taken (title d) (filter (other_than (id d)) l) = false ->
    row_step l (map (fun x => if id x =? id d then d else x) l)
| row_deleted : forall n, row_step l (filter (other_than n) l).

(** *** Further vocabulary *)

Definition lists (r : request) : bool :=
  match r with
  | GetDrinks | GetDrinkDetails _ => true
  | _ => false
  end.

(** The path segment a request names a drink by. *)
Definition target (r : request) : option string :=
  match r with
  | UpdateDrink _ drink_id _ | DeleteDrink _ drink_id => Some drink_id
  | _ => None
  end.

(** The body a request carries to [request.get_json()]. *)
Definition sent_body (r : request) : option request_body :=
  match r with
  | PostDrink _ sent | UpdateDrink _ _ sent => Some sent
  | _ => None
  end.

(** The five routes with their decorators: [GET /drinks] is public, the
    others sit behind [@requires_auth] with a permission each.  The
    decorator is the parameter [gate]. *)
Inductive route : Type :=
| Drinks_GET
| DrinksDetail_GET
| Drinks_POST (sent : request_body)
| Drinks_PATCH (drink_id : string) (sent : request_body)
| Drinks_DELETE (drink_id : string).

Definition app (gate : string -> (json -> M response) -> option string -> M response)
           (r : route) (authorization : option string) : M response :=
  match r with
  | Drinks_GET => get_drinks
  | DrinksDetail_GET => gate "get:drinks-detail" get_drink_details authorization
  | Drinks_POST sent =>
      gate "post:drinks" (fun jwt => post_drink jwt sent) authorization
  | Drinks_PATCH drink_id sent =>
      gate "patch:drinks" (fun jwt => update_drink jwt drink_id sent) authorization
  | Drinks_DELETE drink_id =>
      gate "delete:drinks" (fun jwt => delete_drink jwt drink_id) authorization
  end.

(** ** Properties *)

(** *** Store access *)

Ltac monad_cbn :=
  unfold get_rows, put_rows, lift;
  cbn [bind ret raise catch Monad_M Exc_M Monad_Result get_json rows uptime fst snd].

Lemma access_spec : forall s,
    match access s with
    | (Ok _, s') => rows s' = rows s
    | (Raise e, s') => s' = s /\ e = OperationalError
    end.
Proof.
  unfold access. intros s. destruct (uptime s) as [[|n]|]; auto.
Qed.

Lemma access_answers : forall n s,
    answers (S n) s ->
    exists s', access s = (Ok tt, s') /\ rows s' = rows s /\ answers n s'.
Proof.
  unfold access, answers. intros n s H.
  destruct (uptime s) as [[|k]|] eqn:E.
  - lia.
  - eexists. split; [reflexivity|]. cbn. split; [reflexivity|lia].
  - exists s. rewrite E. auto.
Qed.

Lemma Drink_query_all_spec : forall s,
    match Drink_query_all s with
    | (Ok l, s') => l = rows s /\ rows s' = rows s
    | (Raise _, s') => s' = s
    end.
Proof.
  intros s. unfold Drink_query_all. monad_cbn.
  pose proof (access_spec s) as Ha.
  destruct (access s) as [[[]|e] s1]; [auto | apply Ha].
Qed.

Lemma Drink_query_filter_by_id_spec : forall drink_id s,
    match Drink_query_filter_by_id drink_id s with
    | (Ok l, s') => l = filter (matches drink_id) (rows s) /\ rows s' = rows s
    | (Raise e, s') => s' = s /\ e = OperationalError
    end.
Proof.
  intros drink_id s. unfold Drink_query_filter_by_id. monad_cbn.
  pose proof (access_spec s) as Ha.
  destruct (access s) as [[[]|e] s1]; [rewrite Ha; auto | exact Ha].
Qed.

Lemma Drink_insert_spec : forall t r s,
    match Drink_insert t r s with
    | (Ok _, s') =>
        title_taken t (rows s) = false
        /\ rows s' = (rows s ++ [{| id := fresh_id (rows s); title := t; recipe := r |}])%list
    | (Raise _, s') => rows s' = rows s
    end.
Proof.
  intros t r s. unfold Drink_insert. monad_cbn.
  pose proof (access_spec s) as Ha.
  destruct (access s) as [[[]|e] s1]; [|destruct Ha; subst; reflexivity].
  rewrite Ha. destruct (title_taken t (rows s)); monad_cbn; auto.
Qed.

Lemma Drink_update_spec : forall d s,
    match Drink_update d s with
    | (Ok _, s') =>
        title_taken (title d) (filter (other_than (id d)) (rows s)) = false
        /\ rows s' = map (fun x => if id x =? id d then d else x) (rows s)
    | (Raise _, s') => rows s' = rows s
    end.
Proof.
  intros d s. unfold Drink_update. monad_cbn.
  pose proof (access_spec s) as Ha.
  destruct (access s) as [[[]|e] s1]; [|destruct Ha; subst; reflexivity].
  rewrite Ha.
  destruct (title_taken (title d) (filter (other_than (id d)) (rows s)));
    monad_cbn; auto.
Qed.

Lemma Drink_delete_spec : forall d s,
    match Drink_delete d s with
    | (Ok _, s') => rows s' = filter (other_than (id d)) (rows s)
    | (Raise _, s') => rows s' = rows s
    end.
Proof.
  intros d s. unfold Drink_delete. monad_cbn.
  pose proof (access_spec s) as Ha.
  destruct (access s) as [[[]|e] s1]; [|destruct Ha; subst; reflexivity].
  rewrite Ha. reflexivity.
Qed.

Lemma py_get_raise : forall data k e, py_get data k = Raise e -> e = AttributeError.
Proof. intros [] k e H; cbn in H; congruence. Qed.

Lemma py_get_dict : forall data k v,
    py_get data k = Ok v -> exists fields, data = JObj fields.
Proof. intros [] k v H; cbn in H; try discriminate. eauto. Qed.

(** *** Walking through a view *)

Ltac store_step :=
  match goal with
  | |- context [Drink_insert ?t ?r ?s] =>
      let H := fresh "Hins" in
      pose proof (Drink_insert_spec t r s) as H;
      destruct (Drink_insert t r s) as [[[]|?] ?]
  | |- context [Drink_update ?d ?s] =>
      let H := fresh "Hupd" in
      pose proof (Drink_update_spec d s) as H;
      destruct (Drink_update d s) as [[[]|?] ?]
  | |- context [Drink_delete ?d ?s] =>
      let H := fresh "Hdel" in
      pose proof (Drink_delete_spec d s) as H;
      destruct (Drink_delete d s) as [[[]|?] ?]
  | |- context [Drink_query_all ?s] =>
      let H := fresh "Hall" in
      pose proof (Drink_query_all_spec s) as H;
      destruct (Drink_query_all s) as [[?|?] ?]
  | |- context [Drink_query_filter_by_id ?i ?s] =>
      let H := fresh "Hfind" in
      pose proof (Drink_query_filter_by_id_spec i s) as H;
      destruct (Drink_query_filter_by_id i s) as [[?|?] ?];
      destruct H; subst
  | |- context [get_json ?b] =>
      is_var b; destruct b
  | |- context [py_get ?d ?k] =>
      let E := fresh "Eget" in
      destruct (py_get d k) eqn:E; [|apply py_get_raise in E; subst]
  | |- context [comprehension Drink_short ?l] =>
      let E := fresh "Eshort" in destruct (comprehension Drink_short l) eqn:E
  | |- context [one_or_none (filter ?p ?l)] =>
      let E := fresh "Efound" in
      destruct (filter p l) as [|? [|? ?]] eqn:E; unfold one_or_none
  end;
  monad_cbn.

Ltac walk :=
  unfold dispatch, view_of, get_drinks, get_drink_details, post_drink,
    update_drink, delete_drink;
  monad_cbn; repeat store_step.

Ltac leaf :=
  let H := fresh "Hrun" in
  intros H; inversion H; subst; clear H;
  cbn [status content respond store_error errorhandler not_found bad_request
       Z.eqb Pos.eqb] in *.

(** *** Lists of rows *)

Lemma title_listed : forall t l,
    existsb (fun d => json_eqb (title d) t) l = true <-> In t (map title l).
Proof.
  intros t l. rewrite existsb_exists, in_map_iff.
  unfold json_eqb. split; intros (d & H1 & H2); exists d;
    destruct (json_eq_dec (title d) t).
  - split; assumption.
  - discriminate H2.
  - split; [assumption | reflexivity].
  - contradiction.
Qed.

Lemma title_taken_false : forall t l,
    title_taken t l = false <-> ~ In t (titles l).
Proof.
  intros t l. unfold titles. rewrite filter_In.
  destruct t; cbn [title_taken has_title].
  1: split; [intros _ [_ H]; discriminate H | reflexivity].
  all: rewrite <- title_listed; destruct (existsb _ l); split.
  all: try discriminate; try reflexivity.
  all: try (intros H; exfalso; apply H; split; reflexivity).
  all: intros _ [H _]; discriminate H.
Qed.

Lemma title_taken_true : forall d l,
    In d l -> title d <> JNull -> title_taken (title d) l = true.
Proof.
  intros d l H Hnull. destruct (title_taken (title d) l) eqn:E; [reflexivity|].
  apply title_taken_false in E. destruct E. apply filter_In. split.
  - now apply in_map.
  - destruct (title d); try reflexivity. now destruct Hnull.
Qed.

Lemma titles_cons : forall x l,
    titles (x :: l) = if has_title (title x) then title x :: titles l else titles l.
Proof. reflexivity. Qed.

Lemma titles_app : forall l l', titles (l ++ l') = (titles l ++ titles l')%list.
Proof. intros l l'. unfold titles. now rewrite map_app, filter_app. Qed.

Lemma titles_In : forall t l,
    In t (titles l) <-> has_title t = true /\ exists d, In d l /\ title d = t.
Proof.
  intros t l. unfold titles. rewrite filter_In, in_map_iff.
  split; intros [H1 H2]; split; try assumption.
  - destruct H1 as (d & Hd & Hin). eauto.
  - destruct H2 as (d & Hin & Hd). eauto.
Qed.

Lemma titles_filter : forall (p : Drink -> bool) l,
    NoDup (titles l) -> NoDup (titles (filter p l)).
Proof.
  intros p l. induction l as [|x l IH]; cbn [filter]; intros H; [constructor|].
  rewrite titles_cons in H.
  assert (Hl : NoDup (titles l))
    by (destruct (has_title (title x)); [now inversion H | assumption]).
  destruct (p x); [|auto]. rewrite titles_cons.
  destruct (has_title (title x)) eqn:Ex; [|auto].
  inversion H as [|? ? Hx _]; subst. constructor; [|auto].
  intros Hin. apply Hx. apply titles_In in Hin as (Ht & d & Hd & Heq).
  apply filter_In in Hd as [Hd _]. apply titles_In. eauto.
Qed.

Lemma fresh_id_above : forall l n, In n (map id l) -> n < fresh_id l.
Proof.
  unfold fresh_id. induction l as [|x l IH]; cbn [map fold_right In]; intros n H.
  - contradiction.
  - destruct H as [<- | H]; [lia|]. specialize (IH n H). lia.
Qed.

Lemma fresh_id_fresh : forall l, ~ In (fresh_id l) (map id l).
Proof. intros l H. apply fresh_id_above in H. lia. Qed.

Lemma NoDup_map_filter : forall (A B : Type) (f : A -> B) (p : A -> bool) (l : list A),
    NoDup (map f l) -> NoDup (map f (filter p l)).
Proof.
  intros A B f p l. induction l as [|x l IH]; cbn; intros H; [constructor|].
  inversion H as [|? ? Hx Hl]; subst.
  destruct (p x); cbn; auto. constructor; auto.
  intros Hin. apply Hx. apply in_map_iff in Hin as (y & Hy & Hf).
  apply filter_In in Hf. apply in_map_iff. exists y. tauto.
Qed.

Lemma NoDup_snoc : forall (B : Type) (l : list B) (b : B),
    NoDup l -> ~ In b l -> NoDup (l ++ [b]).
Proof.
  intros B l b Hl Hb. induction Hl as [|x l Hx Hl IH]; cbn.
  - constructor; [tauto | constructor].
  - constructor.
    + rewrite in_app_iff. cbn in *. intuition congruence.
    + apply IH. cbn in Hb. tauto.
Qed.

(** The rows of the key [id d] overwritten by [d], as [Drink.update()]
    leaves them. *)
Lemma overwrite_ids : forall d l,
    map id (map (fun x => if id x =? id d then d else x) l) = map id l.
Proof.
  intros d l. induction l as [|x l IH]; cbn; [reflexivity|].
  rewrite IH. destruct (Z.eqb_spec (id x) (id d)) as [E|E]; congruence.
Qed.

Lemma overwrite_absent : forall d l,
    ~ In (id d) (map id l) ->
    map (fun x => if id x =? id d then d else x) l = l.
Proof.
  intros d l. induction l as [|x l IH]; cbn; intros H; [reflexivity|].
  destruct (Z.eqb_spec (id x) (id d)) as [E|E]; [tauto|].
  rewrite IH; tauto.
Qed.

Lemma others_absent : forall n l,
    ~ In n (map id l) -> filter (other_than n) l = l.
Proof.
  intros n l. unfold other_than. induction l as [|x l IH]; cbn; intros H; [reflexivity|].
  destruct (Z.eqb_spec (id x) n) as [E|E]; [tauto|]. cbn.
  rewrite IH; tauto.
Qed.

Lemma overwrite_titles : forall d l,
    unique_ids l -> unique_titles l ->
    title_taken (title d) (filter (other_than (id d)) l) = false ->
    unique_titles (map (fun x => if id x =? id d then d else x) l).
Proof.
  unfold unique_ids, unique_titles. intros d l.
  induction l as [|x l IH]; cbn [map filter]; intros Hid Ht Hfree; [constructor|].
  inversion Hid as [|? ? Hxid Hlid]; subst.
  rewrite titles_cons in Ht.
  assert (Hl : NoDup (titles l))
    by (destruct (has_title (title x)); [now inversion Ht | assumption]).
  unfold other_than at 1 in Hfree.
  destruct (Z.eqb_spec (id x) (id d)) as [E|E]; cbn [negb] in Hfree.
  - rewrite E in Hxid. rewrite overwrite_absent by assumption.
    rewrite others_absent in Hfree by assumption.
    rewrite titles_cons. destruct (has_title (title d)); [|assumption].
    constructor; [now apply title_taken_false | assumption].
  - apply title_taken_false in Hfree. rewrite titles_cons in Hfree.
    assert (Hfree' : ~ In (title d) (titles (filter (other_than (id d)) l)))
      by (destruct (has_title (title x)); [cbn in Hfree; tauto | assumption]).
    assert (IH' := IH Hlid Hl (proj2 (title_taken_false _ _) Hfree')).
    rewrite titles_cons. destruct (has_title (title x)) eqn:Ex; [|assumption].
    inversion Ht as [|? ? Hxt _]; subst. constructor; [|assumption].
    intros Hin. apply titles_In in Hin as (_ & y & Hy & Heq).
    apply in_map_iff in Hy as (z & Hz & Hin). subst y.
    destruct (Z.eqb_spec (id z) (id d)).
    + apply Hfree. left. congruence.
    + apply Hxt. apply titles_In. eauto.
Qed.

Lemma request_row_step : forall r s,
    row_step (rows s) (rows (snd (dispatch (view_of r) s))).
Proof.
  intros r s.
  destruct (dispatch (view_of r) s) as [resp s'] eqn:E. revert E. cbn [snd].
  destruct r; walk; leaf.
  all: repeat match goal with
         | H : _ /\ _ |- _ => destruct H
         end.
  all: repeat match goal with
         | H : rows ?a = _ |- context [rows ?a] => rewrite H
         end.
  all: try (subst; now constructor).
  all: apply row_overwritten; congruence.
Qed.

Lemma row_step_invariant : forall l l',
    row_step l l' ->
    unique_ids l /\ unique_titles l -> unique_ids l' /\ unique_titles l'.
Proof.
  unfold unique_ids, unique_titles.
  intros l l' Hstep [Hid Ht]. destruct Hstep as [|t r Hfree|d Hfree|n].
  - auto.
  - split.
    + rewrite map_app. cbn [map]. apply NoDup_snoc; [assumption|].
      apply fresh_id_fresh.
    + rewrite titles_app, titles_cons. cbn [title].
      destruct (has_title t); [|now rewrite app_nil_r].
      apply NoDup_snoc; [assumption|]. now apply title_taken_false.
  - split.
    + now rewrite overwrite_ids.
    + now apply overwrite_titles.
  - split; [now apply NoDup_map_filter | now apply titles_filter].
Qed.

Lemma reachable_invariant : forall s,
    reachable s -> unique_ids (rows s) /\ unique_titles (rows s).
Proof.
  intros s H. induction H as [u|s u H IH|s r H IH]; cbn [rows].
  - split; constructor.
  - exact IH.
  - eapply row_step_invariant; [apply request_row_step | exact IH].
Qed.

(** *** Create and update *)

(** C1. Whatever the store and the request body, a create or an update
    that answers 200 answers with the detailed projection of every drink
    of the table as the request leaves it, not of the affected drink
    alone. *)
Theorem create_update_return_collection : forall r s resp s',
    creates_or_updates r = true ->
    dispatch (view_of r) s = (resp, s') ->
    status resp = 200 ->
    content resp =
      Json (JObj [("success", JBool true);
                  ("drinks", JArr (map Drink_long (rows s')))]).
Proof.
  intros r s resp s' Hr. destruct r; try discriminate Hr; clear Hr.
  all: walk; leaf; intros H200; try discriminate H200.
  all: repeat match goal with H : _ /\ _ |- _ => destruct H end.
  all: congruence.
Qed.

Lemma found_row : forall drink_id l d rest,
    filter (matches drink_id) l = d :: rest ->
    In d l /\ id_of_path drink_id = Some (id d).
Proof.
  intros drink_id l d rest H.
  assert (Hin : In d (filter (matches drink_id) l)) by (rewrite H; now left).
  apply filter_In in Hin as [Hin Hm]. split; [assumption|].
  unfold matches in Hm. destruct (id_of_path drink_id); [|discriminate].
  apply Z.eqb_eq in Hm. congruence.
Qed.

(** C2. An update of an existing drink that answers 200 leaves, under the
    key of that drink, one row whose title is null when the body has no
    title and whose recipe is the text of null when the body has no
    recipe, whatever the row held before. *)
Theorem update_nulls_omitted_fields : forall jwt drink_id fields s resp s',
    dispatch (update_drink jwt drink_id (Parsed (JObj fields))) s = (resp, s') ->
    status resp = 200 ->
    exists d d',
      In d (rows s) /\ id_of_path drink_id = Some (id d) /\
      In d' (rows s') /\ id d' = id d /\
      (forall x, In x (rows s') -> id x = id d -> x = d') /\
      (dict_get "title" fields = None -> title d' = JNull) /\
      (dict_get "recipe" fields = None -> recipe d' = json_dumps JNull).
Proof.
  intros jwt drink_id fields s resp s'.
  walk; leaf; intros H200; try discriminate H200.
  repeat match goal with H : _ /\ _ |- _ => destruct H end.
  cbn [id title] in *.
  match goal with
  | H : filter _ _ = [?d],
    Ht : py_get _ "title" = Ok ?t, Hr : py_get _ "recipe" = Ok ?r |- _ =>
      destruct (found_row _ _ _ _ H) as [Hin Hid]; exists d;
      exists {| id := id d; title := t; recipe := json_dumps r |}
  end.
  cbn [id title recipe].
  repeat split; try assumption.
  - replace (rows s') with (rows s1) by congruence.
    match goal with H : rows s1 = _ |- _ => rewrite H end.
    apply in_map_iff. exists d. split.
    + now rewrite Z.eqb_refl.
    + congruence.
  - intros x Hx Hxid.
    replace (rows s') with (rows s1) in Hx by congruence.
    match goal with H : rows s1 = _ |- _ => rewrite H in Hx end.
    apply in_map_iff in Hx as (y & Hy & _).
    destruct (Z.eqb_spec (id y) (id d)); [now subst x|].
    subst x. contradiction.
  - intros Hnone. cbn in Eget. rewrite Hnone in Eget. congruence.
  - intros Hnone. cbn in Eget0. rewrite Hnone in Eget0. congruence.
Qed.

(** C3, as amended. In every reachable store no two drinks have the same
    title, null apart; there, a create whose title is not null and is the
    title of a stored drink answers 500 with the store-error body and leaves
    the table as it was, without a second drink of that title. *)
Theorem titles_stay_unique : forall s,
    reachable s ->
    unique_titles (rows s)
    /\ forall jwt data d resp s',
        In d (rows s) ->
        title d <> JNull ->
        py_get data "title" = Ok (title d) ->
        dispatch (post_drink jwt (Parsed data)) s = (resp, s') ->
        status resp = 500
        /\ content resp = Json (JObj [("success", JBool false);
                                      ("error", JStr "An error occured")])
        /\ rows s' = rows s
        /\ unique_titles (rows s').
Proof.
  intros s Hreach. apply reachable_invariant in Hreach as [_ Huniq].
  split; [assumption|].
  intros jwt data d resp s' Hin Hnull Hget.
  unfold dispatch, post_drink. monad_cbn. rewrite Hget. monad_cbn.
  destruct (py_get_dict _ _ _ Hget) as [fields ->]. cbn [py_get]. monad_cbn.
  repeat store_step; leaf.
  all: repeat match goal with H : _ /\ _ |- _ => destruct H end.
  all: try (rewrite (title_taken_true d (rows s) Hin Hnull) in *; discriminate).
  all: repeat split; try reflexivity; congruence.
Qed.

(** *** Lookups by id *)

Lemma lookup_answers : forall n drink_id s,
    answers (S n) s ->
    exists s1,
      Drink_query_filter_by_id drink_id s
      = (Ok (filter (matches drink_id) (rows s)), s1)
      /\ rows s1 = rows s /\ answers n s1.
Proof.
  intros n drink_id s H. destruct (access_answers n s H) as (s1 & Ha & Hr & Hn).
  exists s1. unfold Drink_query_filter_by_id. monad_cbn. rewrite Ha, Hr. auto.
Qed.

Lemma delete_answers : forall n d s,
    answers (S n) s ->
    exists s1,
      Drink_delete d s = (Ok tt, s1)
      /\ rows s1 = filter (other_than (id d)) (rows s).
Proof.
  intros n d s H. destruct (access_answers n s H) as (s1 & Ha & Hr & Hn).
  eexists. unfold Drink_delete. monad_cbn. rewrite Ha, Hr. split; reflexivity.
Qed.

Lemma no_match : forall drink_id l,
    (forall d, In d l -> id_of_path drink_id <> Some (id d)) ->
    filter (matches drink_id) l = [].
Proof.
  intros drink_id l H. induction l as [|x l IH]; cbn; [reflexivity|].
  rewrite IH by (intros d Hd; apply H; now right).
  unfold matches. destruct (id_of_path drink_id) as [n|] eqn:E; [|reflexivity].
  destruct (Z.eqb_spec (id x) n); [|reflexivity].
  exfalso. apply (H x); [now left | congruence].
Qed.

Lemma matches_key : forall drink_id n x,
    id_of_path drink_id = Some n -> matches drink_id x = negb (other_than n x).
Proof.
  intros drink_id n x H. unfold matches, other_than. rewrite H.
  now rewrite negb_involutive.
Qed.

Lemma one_match : forall drink_id d l,
    unique_ids l -> In d l -> id_of_path drink_id = Some (id d) ->
    filter (matches drink_id) l = [d].
Proof.
  unfold unique_ids. intros drink_id d l Hu Hin Hid.
  induction l as [|x l IH]; cbn in *; [contradiction|].
  inversion Hu as [|? ? Hx Hl]; subst.
  unfold matches at 1. rewrite Hid.
  destruct Hin as [-> | Hin].
  - rewrite Z.eqb_refl. f_equal. apply no_match.
    intros y Hy E. apply Hx. apply in_map_iff. exists y. split; congruence.
  - destruct (Z.eqb_spec (id x) (id d)) as [E|E]; [|auto].
    exfalso. apply Hx. rewrite E. now apply in_map.
Qed.

Lemma single_match_split : forall (p : Drink -> bool) l d,
    filter p l = [d] ->
    exists before after,
      l = (before ++ d :: after)%list
      /\ filter p before = [] /\ filter p after = [].
Proof.
  intros p l d. induction l as [|x l IH]; cbn; [discriminate|].
  destruct (p x) eqn:E.
  - intros H. inversion H; subst. exists [], l. auto.
  - intros H. destruct (IH H) as (before & after & -> & Hb & Ha).
    exists (x :: before), after. cbn. rewrite E. auto.
Qed.

Lemma none_match_others : forall drink_id n l,
    id_of_path drink_id = Some n ->
    filter (matches drink_id) l = [] -> filter (other_than n) l = l.
Proof.
  intros drink_id n l Hid. induction l as [|x l IH]; cbn; [reflexivity|].
  rewrite (matches_key drink_id n x Hid).
  destruct (other_than n x); cbn; [|discriminate].
  intros H. now rewrite IH.
Qed.

Lemma others_removed : forall n l, ~ In n (map id (filter (other_than n) l)).
Proof.
  intros n l H. apply in_map_iff in H as (x & Hx & H).
  apply filter_In in H as [_ H]. unfold other_than in H.
  rewrite <- Hx, Z.eqb_refl in H. discriminate.
Qed.

(** C4, as amended. An update under an id that no stored drink has, the
    database answering the lookup, leaves every row as it was; it answers
    404 when the body of the request parses and 400 when it does not. *)
Theorem update_unknown_id : forall jwt drink_id sent s resp s',
    answers 1 s ->
    (forall d, In d (rows s) -> id_of_path drink_id <> Some (id d)) ->
    dispatch (update_drink jwt drink_id sent) s = (resp, s') ->
    rows s' = rows s
    /\ match sent with
       | Parsed _ => resp = not_found /\ status resp = 404
       | Unparsable => resp = bad_request /\ status resp = 400
       end.
Proof.
  intros jwt drink_id sent s resp s' Hup Hnone.
  destruct (lookup_answers 0 drink_id s Hup) as (s1 & Hfind & Hrows & _).
  unfold dispatch, update_drink. monad_cbn.
  rewrite Hfind, (no_match _ _ Hnone). unfold one_or_none. monad_cbn.
  destruct sent; monad_cbn; leaf; auto.
Qed.

(** C5. A delete under an id that no stored drink has answers 404 and
    leaves every row as it was, the database answering the lookup. *)
Theorem delete_unknown_id : forall jwt drink_id s resp s',
    answers 1 s ->
    (forall d, In d (rows s) -> id_of_path drink_id <> Some (id d)) ->
    dispatch (delete_drink jwt drink_id) s = (resp, s') ->
    resp = not_found /\ status resp = 404 /\ rows s' = rows s.
Proof.
  intros jwt drink_id s resp s' Hup Hnone.
  destruct (lookup_answers 0 drink_id s Hup) as (s1 & Hfind & Hrows & _).
  unfold dispatch, delete_drink. monad_cbn.
  rewrite Hfind, (no_match _ _ Hnone). unfold one_or_none. monad_cbn.
  leaf. auto.
Qed.

(** *** What a listing lists *)

Lemma comprehension_In : forall (A B : Type) (f : A -> Result B) l ys,
    comprehension f l = Ok ys ->
    forall y, In y ys -> exists x, In x l /\ f x = Ok y.
Proof.
  intros A B f l. induction l as [|x l IH]; cbn; intros ys H y Hy.
  - inversion H; subst. contradiction.
  - destruct (f x) as [b|] eqn:Ef; [|discriminate].
    destruct (comprehension f l) as [bs|]; [|discriminate].
    inversion H; subst. destruct Hy as [<- | Hy].
    + exists x. auto.
    + destruct (IH bs eq_refl y Hy) as (x' & Hx' & Hf). exists x'. auto.
Qed.

Lemma Drink_short_id : forall x j,
    Drink_short x = Ok j -> id_field j = Some (JNum (id x)).
Proof.
  unfold Drink_short. intros x j H.
  destruct (json_loads (recipe x)); try discriminate.
  cbn [bind ret Monad_Result] in H.
  destruct (comprehension short_entry items); inversion H. reflexivity.
Qed.

Lemma get_drinks_lists : forall n s,
    lists_id n (fst (dispatch get_drinks s)) -> In n (map id (rows s)).
Proof.
  intros n s. destruct (dispatch get_drinks s) as [resp s'] eqn:E.
  revert E. walk; leaf; intros (j & Hj & Hid); cbn in Hj; try contradiction.
  destruct Hall as [-> _].
  destruct (comprehension_In _ _ _ _ _ Eshort j Hj) as (x & Hx & Hshort).
  apply Drink_short_id in Hshort. apply in_map_iff. exists x.
  split; [congruence | assumption].
Qed.

Lemma get_drink_details_lists : forall jwt n s,
    lists_id n (fst (dispatch (get_drink_details jwt) s)) -> In n (map id (rows s)).
Proof.
  intros jwt n s. destruct (dispatch (get_drink_details jwt) s) as [resp s'] eqn:E.
  revert E. walk; leaf; intros (j & Hj & Hid); cbn in Hj; try contradiction.
  destruct Hall as [-> _].
  apply in_map_iff in Hj as (x & <- & Hx). cbn in Hid.
  apply in_map_iff. exists x. split; [congruence | assumption].
Qed.

(** *** Delete *)

(** C6. A delete under the id of a stored drink, the database answering,
    answers 200 and removes the drink: no listing, brief or detailed, of
    the store it leaves lists a drink of that key.  The [delete] field of
    the body holds the text of the request path, a JSON string, where the
    id of the deleted drink is a number: the body is not
    [{success: true, delete: <id>}] with the id of the record. *)
Theorem delete_removes_drink : forall jwt drink_id d s resp s',
    answers 2 s ->
    unique_ids (rows s) ->
    In d (rows s) ->
    id_of_path drink_id = Some (id d) ->
    dispatch (delete_drink jwt drink_id) s = (resp, s') ->
    status resp = 200
    /\ content resp = Json (JObj [("success", JBool true); ("delete", JStr drink_id)])
    /\ content resp <> Json (JObj [("success", JBool true); ("delete", JNum (id d))])
    /\ ~ lists_id (id d) (fst (dispatch get_drinks s'))
    /\ forall jwt', ~ lists_id (id d) (fst (dispatch (get_drink_details jwt') s')).
Proof.
  intros jwt drink_id d s resp s' Hup Hu Hin Hid.
  destruct (lookup_answers 1 drink_id s Hup) as (s1 & Hfind & Hrows & Hup1).
  destruct (delete_answers 0 d s1 Hup1) as (s2 & Hdel & Hrows2).
  unfold dispatch, delete_drink. monad_cbn.
  rewrite Hfind, (one_match _ _ _ Hu Hin Hid). unfold one_or_none. monad_cbn.
  rewrite Hdel. monad_cbn. leaf.
  assert (Hgone : ~ In (id d) (map id (rows s'))).
  { rewrite Hrows2. apply others_removed. }
  repeat split; try reflexivity.
  - discriminate.
  - intros H. apply Hgone. now apply get_drinks_lists.
  - intros jwt' H. apply Hgone. now apply get_drink_details_lists in H.
Qed.

(** C10. A delete that answers 200 takes out of the table the one row of
    the id of the request path: the rows before it and the rows after it
    stay as they were, in their places, and no row comes in. *)
Theorem delete_removes_only_target : forall jwt drink_id s resp s',
    dispatch (delete_drink jwt drink_id) s = (resp, s') ->
    status resp = 200 ->
    exists before d after,
      rows s = (before ++ d :: after)%list
      /\ id_of_path drink_id = Some (id d)
      /\ rows s' = (before ++ after)%list.
Proof.
  intros jwt drink_id s resp s'.
  walk; leaf; intros H200; try discriminate H200.
  destruct (found_row _ _ _ _ Efound) as [_ Hid].
  destruct (single_match_split _ _ _ Efound) as (before & after & Hl & Hb & Ha).
  exists before, d, after. repeat split; try assumption.
  rewrite Hdel, H0, Hl, filter_app. cbn [filter].
  rewrite (none_match_others _ _ _ Hid Hb), (none_match_others _ _ _ Hid Ha).
  unfold other_than at 1. now rewrite Z.eqb_refl.
Qed.

(** *** Requests that go through *)

Lemma query_all_answers : forall n s,
    answers (S n) s ->
    exists s1,
      Drink_query_all s = (Ok (rows s), s1) /\ rows s1 = rows s /\ answers n s1.
Proof.
  intros n s H. destruct (access_answers n s H) as (s1 & Ha & Hr & Hn).
  exists s1. unfold Drink_query_all. monad_cbn. rewrite Ha, Hr. auto.
Qed.

Lemma insert_answers : forall n t r s,
    answers (S n) s ->
    title_taken t (rows s) = false ->
    exists s1, Drink_insert t r s = (Ok tt, s1) /\ answers n s1.
Proof.
  intros n t r s H Hfree. destruct (access_answers n s H) as (s1 & Ha & Hr & Hn).
  eexists. unfold Drink_insert. monad_cbn. rewrite Ha, Hr, Hfree.
  split; [reflexivity|]. exact Hn.
Qed.

Lemma update_answers : forall n d s,
    answers (S n) s ->
    title_taken (title d) (filter (other_than (id d)) (rows s)) = false ->
    exists s1, Drink_update d s = (Ok tt, s1) /\ answers n s1.
Proof.
  intros n d s H Hfree. destruct (access_answers n s H) as (s1 & Ha & Hr & Hn).
  eexists. unfold Drink_update. monad_cbn. rewrite Ha, Hr, Hfree.
  split; [reflexivity|]. exact Hn.
Qed.

(** A create with a dict for a body and a title that no drink has answers
    200 when the database answers the insert and the listing. *)
Lemma create_succeeds : forall jwt fields t s,
    answers 2 s ->
    py_get (JObj fields) "title" = Ok t ->
    title_taken t (rows s) = false ->
    status (fst (dispatch (post_drink jwt (Parsed (JObj fields))) s)) = 200.
Proof.
  intros jwt fields t s Hup Ht Hfree.
  unfold dispatch, post_drink. monad_cbn. rewrite Ht. cbn [py_get]. monad_cbn.
  destruct (insert_answers 1 t
              (json_dumps match dict_get "recipe" fields with
                          | Some v => v
                          | None => JNull
                          end) s Hup Hfree) as (s1 & Hins & Hup1).
  rewrite Hins.
  destruct (query_all_answers 0 s1 Hup1) as (s2 & Hall & _).
  rewrite Hall. reflexivity.
Qed.

(** An update of a stored drink with a dict for a body and a title that no
    other drink has answers 200 when the database answers the lookup, the
    write and the listing. *)
Lemma update_succeeds : forall jwt drink_id fields t d s,
    answers 3 s ->
    unique_ids (rows s) ->
    In d (rows s) ->
    id_of_path drink_id = Some (id d) ->
    py_get (JObj fields) "title" = Ok t ->
    title_taken t (filter (other_than (id d)) (rows s)) = false ->
    status (fst (dispatch (update_drink jwt drink_id (Parsed (JObj fields))) s)) = 200.
Proof.
  intros jwt drink_id fields t d s Hup Hu Hin Hid Ht Hfree.
  destruct (lookup_answers 2 drink_id s Hup) as (s1 & Hfind & Hrows & Hup1).
  unfold dispatch, update_drink. monad_cbn.
  rewrite Hfind, (one_match _ _ _ Hu Hin Hid). unfold one_or_none. monad_cbn.
  rewrite Ht. cbn [py_get]. monad_cbn.
  match goal with
  | |- context [Drink_update ?d' s1] =>
      destruct (update_answers 1 d' s1 Hup1) as (s2 & Hupd & Hup2);
      [cbn [id title]; now rewrite Hrows | rewrite Hupd]
  end.
  destruct (query_all_answers 0 s2 Hup2) as (s3 & Hall & _).
  rewrite Hall. reflexivity.
Qed.

(** *** The database not answering *)

Lemma outage_listings : forall jwt s,
    uptime s = Some O ->
    dispatch get_drinks s = (store_error "An error occurred", s)
    /\ dispatch (get_drink_details jwt) s = (store_error "An error occurred", s).
Proof.
  intros jwt s H.
  unfold dispatch, get_drinks, get_drink_details, Drink_query_all, access.
  monad_cbn. rewrite H. auto.
Qed.

Lemma outage_create : forall jwt fields s,
    uptime s = Some O ->
    dispatch (post_drink jwt (Parsed (JObj fields))) s = (store_error "An error occured", s).
Proof.
  intros jwt fields s H.
  unfold dispatch, post_drink, Drink_insert, access. cbn [py_get].
  monad_cbn. rewrite H. reflexivity.
Qed.

Lemma outage_lookup : forall jwt drink_id sent s,
    uptime s = Some O ->
    dispatch (update_drink jwt drink_id sent) s
    = ({| status := 500; content := ErrorPage |}, s)
    /\ dispatch (delete_drink jwt drink_id) s
       = ({| status := 500; content := ErrorPage |}, s).
Proof.
  intros jwt drink_id sent s H.
  unfold dispatch, update_drink, delete_drink, Drink_query_filter_by_id, access.
  monad_cbn. rewrite H. auto.
Qed.

(** *** The two projections *)

Lemma dict_get_not_name : forall k fields,
    String.eqb k "name" = false ->
    dict_get k (filter not_name fields) = dict_get k fields.
Proof.
  intros k fields Hk. induction fields as [|[k' v] fields IH]; cbn; [reflexivity|].
  unfold not_name at 1. cbn [fst].
  destruct (String.eqb_spec k' "name") as [->|Hn]; cbn [negb dict_get].
  - rewrite String.eqb_sym, Hk. exact IH.
  - now rewrite IH.
Qed.

Lemma plain_entry_short : forall entry,
    plain_entry entry = true -> short_entry entry = Ok (drop_name entry).
Proof.
  intros [| | | | |fields]; cbn [plain_entry]; try discriminate.
  destruct (list_eq_dec string_dec _ _) as [E|]; [intros _|discriminate].
  unfold short_entry, subscript, drop_name.
  rewrite <- (dict_get_not_name "color" fields eq_refl).
  rewrite <- (dict_get_not_name "parts" fields eq_refl).
  destruct (filter not_name fields) as [|[k1 v1] [|[k2 v2] [|? ?]]];
    cbn in E; try discriminate.
  inversion E; subst. reflexivity.
Qed.

Lemma plain_entries_short : forall entries,
    forallb plain_entry entries = true ->
    comprehension short_entry entries = Ok (map drop_name entries).
Proof.
  induction entries as [|e entries IH]; cbn [comprehension map forallb];
    [reflexivity|].
  intros H. apply andb_prop in H as [He Hes].
  now rewrite (plain_entry_short e He), (IH Hes).
Qed.

Lemma plain_recipe_short : forall d,
    plain_recipe (json_loads (recipe d)) = true ->
    Drink_short d = Ok (without_names (Drink_long d)).
Proof.
  intros d. unfold Drink_short, Drink_long, plain_recipe.
  destruct (json_loads (recipe d)); try discriminate.
  intros H. now rewrite (plain_entries_short _ H).
Qed.

Lemma plain_recipes_short : forall l,
    (forall d, In d l -> plain_recipe (json_loads (recipe d)) = true) ->
    comprehension Drink_short l = Ok (map without_names (map Drink_long l)).
Proof.
  induction l as [|d l IH]; cbn [comprehension map]; intros H; [reflexivity|].
  rewrite (plain_recipe_short d) by (apply H; now left).
  rewrite IH by (intros x Hx; apply H; now right). reflexivity.
Qed.

(** C8, as amended. In a store whose recipes are sequences of entries that
    hold, besides a name, the color and then the parts and nothing else,
    the two listings answer with the same status, and the drinks of the
    brief one are the drinks of the detailed one, in the same order, with
    the name field removed from each recipe entry. *)
Theorem brief_is_detailed_without_names : forall jwt s,
    (forall d, In d (rows s) -> plain_recipe (json_loads (recipe d)) = true) ->
    status (fst (dispatch get_drinks s))
    = status (fst (dispatch (get_drink_details jwt) s))
    /\ listed (fst (dispatch get_drinks s))
       = map without_names (listed (fst (dispatch (get_drink_details jwt) s))).
Proof.
  intros jwt s Hplain. apply plain_recipes_short in Hplain.
  unfold dispatch, get_drinks, get_drink_details. monad_cbn.
  pose proof (Drink_query_all_spec s) as Hall.
  destruct (Drink_query_all s) as [[l|e] s1]; monad_cbn.
  - destruct Hall as [-> _]. rewrite Hplain. cbn. auto.
  - cbn. auto.
Qed.

(** ** Further properties of the views *)

Lemma get_drinks_rows : forall s, rows (snd (dispatch get_drinks s)) = rows s.
Proof.
  intros s. destruct (dispatch get_drinks s) as [resp s'] eqn:E.
  revert E. cbn [snd]. walk; leaf.
  all: repeat match goal with H : _ /\ _ |- _ => destruct H end.
  all: congruence.
Qed.

Lemma get_drink_details_rows : forall jwt s,
    rows (snd (dispatch (get_drink_details jwt) s)) = rows s.
Proof.
  intros jwt s. destruct (dispatch (get_drink_details jwt) s) as [resp s'] eqn:E.
  revert E. cbn [snd]. walk; leaf.
  all: repeat match goal with H : _ /\ _ |- _ => destruct H end.
  all: congruence.
Qed.

(** X1. The two listings only read: whatever they answer, the table is
    the one they found. *)
Theorem listings_keep_rows : forall r s,
    lists r = true ->
    rows (snd (dispatch (view_of r) s)) = rows s.
Proof.
  intros r s Hr. destruct r; try discriminate Hr; cbn [view_of].
  - apply get_drinks_rows.
  - apply get_drink_details_rows.
Qed.

Lemma comprehension_map : forall (A B C : Type) (f : A -> Result B) (g : B -> C)
                                 (h : A -> C) l ys,
    (forall x y, f x = Ok y -> g y = h x) ->
    comprehension f l = Ok ys -> map g ys = map h l.
Proof.
  intros A B C f g h l. induction l as [|x l IH]; cbn; intros ys Hf H.
  - inversion H. reflexivity.
  - destruct (f x) as [y|] eqn:Ex; [|discriminate].
    destruct (comprehension f l) as [ys'|]; [|discriminate].
    inversion H; subst. cbn. rewrite (Hf x y Ex), (IH ys' Hf eq_refl). reflexivity.
Qed.

(** X2. A listing that answers 200 lists the stored drinks one for one, in
    the order of the table, each under its key. *)
Theorem listing_lists_every_drink : forall r s resp s',
    lists r = true ->
    dispatch (view_of r) s = (resp, s') ->
    status resp = 200 ->
    map id_field (listed resp) = map (fun d => Some (JNum (id d))) (rows s).
Proof.
  intros r s resp s' Hr. destruct r; try discriminate Hr; clear Hr.
  all: walk; leaf; intros H200; try discriminate H200.
  all: destruct Hall as [-> _]; cbn [listed content dict_get String.eqb Ascii.eqb Bool.eqb].
  - cbn. eapply comprehension_map; [|eassumption].
    intros x y Hy. now apply Drink_short_id.
  - cbn. rewrite map_map. reflexivity.
Qed.

(** X3. In the answer to any request the [success] flag of the JSON body
    is true exactly when the status is 200; an answer without a JSON body is
    Flask's page with status 500. *)
Theorem success_flag_matches_status : forall r s,
    let resp := fst (dispatch (view_of r) s) in
    match content resp with
    | Json (JObj fields) =>
        dict_get "success" fields = Some (JBool (status resp =? 200))
    | Json _ => False
    | ErrorPage => status resp = 500
    end.
Proof.
  intros r s. cbv zeta.
  destruct (dispatch (view_of r) s) as [resp s'] eqn:E. revert E. cbn [fst].
  destruct r; walk; leaf; reflexivity.
Qed.

(** X4. A view answers 200, 400, 404 or 500 and nothing else: 400 only to
    a create or an update whose body cannot be parsed, and 404 only to an
    update or a delete that names a drink by an id that no stored drink
    has. *)
Theorem view_status_codes : forall r s,
    let code := status (fst (dispatch (view_of r) s)) in
    (code = 200 \/ code = 400 \/ code = 404 \/ code = 500)
    /\ (code = 400 -> sent_body r = Some Unparsable)
    /\ (code = 404 ->
        exists drink_id,
          target r = Some drink_id /\ filter (matches drink_id) (rows s) = []).
Proof.
  intros r s. cbv zeta.
  destruct (dispatch (view_of r) s) as [resp s'] eqn:E. revert E. cbn [fst].
  destruct r; walk; leaf; cbn [target sent_body].
  all: split; [auto 6 | split; intros Hcode; try discriminate Hcode].
  all: try reflexivity.
  all: eexists; split; [reflexivity | assumption].
Qed.

(** X5. A create that answers 200 has put one row at the end of the table,
    under a key no drink had, with the title of the body and the text of its
    recipe, and has left the other rows as they were; the answer lists that
    drink with the recipe as it was sent. *)
Theorem create_appends_row : forall jwt sent s resp s',
    dispatch (post_drink jwt sent) s = (resp, s') ->
    status resp = 200 ->
    exists data n t r,
      sent = Parsed data
      /\ py_get data "title" = Ok t /\ py_get data "recipe" = Ok r
      /\ ~ In n (map id (rows s))
      /\ rows s' = (rows s ++ [{| id := n; title := t; recipe := json_dumps r |}])%list
      /\ In (JObj [("id", JNum n); ("title", t); ("recipe", r)]) (listed resp).
Proof.
  intros jwt sent s resp s'.
  walk; leaf; intros H200; try discriminate H200.
  destruct Hins as [_ Hins]. destruct Hall as [-> Hrows].
  eexists. exists (fresh_id (rows s)). do 2 eexists.
  repeat split; try reflexivity; try eassumption.
  - apply fresh_id_fresh.
  - congruence.
  - cbn. rewrite Hins, map_app, in_app_iff. right. left. reflexivity.
Qed.

(** X6. An update that answers 200 has overwritten the row the id of the
    path selects with the title and the recipe of the body, and nothing
    else: the other rows are the same, in the same places, and the keys of
    the table are the same. *)
Theorem update_changes_only_target : forall jwt drink_id sent s resp s',
    dispatch (update_drink jwt drink_id sent) s = (resp, s') ->
    status resp = 200 ->
    map id (rows s') = map id (rows s)
    /\ exists data d' r,
        sent = Parsed data
        /\ py_get data "title" = Ok (title d')
        /\ py_get data "recipe" = Ok r /\ recipe d' = json_dumps r
        /\ rows s' = map (fun x => if matches drink_id x then d' else x) (rows s).
Proof.
  intros jwt drink_id sent s resp s'.
  walk; leaf; intros H200; try discriminate H200.
  destruct Hupd as [_ Hupd]. destruct Hall as [_ Hrows].
  cbn [id] in Hupd. rewrite Hrows, Hupd, H0.
  destruct (found_row _ _ _ _ Efound) as [_ Hid].
  match goal with
  | Ht : py_get _ "title" = Ok ?t, Hr : py_get _ "recipe" = Ok ?r |- _ =>
      split; [apply overwrite_ids with
                (d := {| id := id d; title := t; recipe := json_dumps r |})|];
      eexists; exists {| id := id d; title := t; recipe := json_dumps r |}, r
  end.
  repeat split; try assumption.
  apply map_ext. intros x. unfold matches. rewrite Hid. reflexivity.
Qed.

(** X7. A create can answer 500 after it has written: when the database
    answers the insert and not the listing that follows it in the same
    guarded block, the answer is the 500 store error and the new row is in
    the table. *)
Theorem create_may_fail_after_writing : forall jwt fields t s resp s',
    uptime s = Some 1%nat ->
    py_get (JObj fields) "title" = Ok t ->
    title_taken t (rows s) = false ->
    dispatch (post_drink jwt (Parsed (JObj fields))) s = (resp, s') ->
    status resp = 500
    /\ content resp = Json (JObj [("success", JBool false);
                                  ("error", JStr "An error occured")])
    /\ exists r,
        rows s' = (rows s ++ [{| id := fresh_id (rows s); title := t; recipe := r |}])%list.
Proof.
  intros jwt fields t s resp s' Hup Ht Hfree.
  unfold dispatch, post_drink. monad_cbn. rewrite Ht. cbn [py_get]. monad_cbn.
  unfold Drink_insert, Drink_query_all, access. monad_cbn.
  rewrite Hup. cbn [rows uptime]. rewrite Hfree. monad_cbn.
  leaf. repeat split. eexists. reflexivity.
Qed.

(** X8. A body that [request.get_json()] parses to a value that is not a
    JSON object (null, an array, a string, a number) is not caught by the
    guarded block: a create answers it with Flask's 500 page without going
    to the store, and an update never answers it with 200 and leaves the
    rows as they were.  A body that cannot be parsed is answered 400 by a
    create, without going to the store either. *)
Theorem non_object_body : forall jwt drink_id data s,
    (forall fields, data <> JObj fields) ->
    dispatch (post_drink jwt (Parsed data)) s
    = ({| status := 500; content := ErrorPage |}, s)
    /\ dispatch (post_drink jwt Unparsable) s = (bad_request, s)
    /\ status (fst (dispatch (update_drink jwt drink_id (Parsed data)) s)) <> 200
    /\ rows (snd (dispatch (update_drink jwt drink_id (Parsed data)) s)) = rows s.
Proof.
  intros jwt drink_id data s Hdata.
  assert (Hget : forall k, py_get data k = Raise AttributeError).
  { intros k. destruct data; try reflexivity. now destruct (Hdata fields). }
  split; [|split].
  - unfold dispatch, post_drink. monad_cbn. rewrite Hget. reflexivity.
  - reflexivity.
  - destruct (dispatch (update_drink jwt drink_id (Parsed data)) s) as [resp s'] eqn:E.
    revert E. cbn [fst snd]. unfold dispatch, update_drink. monad_cbn.
    pose proof (Drink_query_filter_by_id_spec drink_id s) as Hfind.
    destruct (Drink_query_filter_by_id drink_id s) as [[l|e] s1].
    + destruct Hfind as [-> Hrows].
      destruct (filter (matches drink_id) (rows s)) as [|d [|d2 rest]];
        unfold one_or_none; monad_cbn; try rewrite Hget; monad_cbn; leaf;
        split; [discriminate | assumption | discriminate | assumption
               | discriminate | assumption].
    + destruct Hfind as [-> ->]. monad_cbn. leaf. split; [discriminate | reflexivity].
Qed.

Lemma deleted_no_match : forall drink_id d l,
    id_of_path drink_id = Some (id d) ->
    filter (matches drink_id) (filter (other_than (id d)) l) = [].
Proof.
  intros drink_id d l Hid. apply no_match. intros x Hx E.
  apply (others_removed (id d) l). apply in_map_iff. exists x.
  split; [congruence | assumption].
Qed.

(** X9. Deleting twice: after a delete that answered 200, a delete under
    the same id, its lookup answered, answers 404 and changes no row. *)
Theorem delete_twice : forall jwt jwt' drink_id s resp s' resp2 s2,
    dispatch (delete_drink jwt drink_id) s = (resp, s') ->
    status resp = 200 ->
    answers 1 s' ->
    dispatch (delete_drink jwt' drink_id) s' = (resp2, s2) ->
    resp2 = not_found /\ rows s2 = rows s'.
Proof.
  intros jwt jwt' drink_id s resp s' resp2 s2 Hfirst H200 Hup.
  assert (Hgone : filter (matches drink_id) (rows s') = []).
  { revert Hfirst H200. walk; leaf; intros H200; try discriminate H200.
    destruct (found_row _ _ _ _ Efound) as [_ Hid].
    rewrite Hdel, H0. now apply deleted_no_match. }
  destruct (lookup_answers 0 drink_id s' Hup) as (s1 & Hfind & Hrows & _).
  unfold dispatch, delete_drink. monad_cbn.
  rewrite Hfind, Hgone. unfold one_or_none. monad_cbn. leaf. auto.
Qed.

(** X10. Create, then delete: after a create that answered 200, a delete
    under the id of the new drink, the database answering, answers 200 and
    leaves the table as it was before the create. *)
Theorem create_then_delete_restores : forall jwt jwt' sent drink_id s resp s' resp2 s2,
    dispatch (post_drink jwt sent) s = (resp, s') ->
    status resp = 200 ->
    id_of_path drink_id = Some (fresh_id (rows s)) ->
    answers 2 s' ->
    dispatch (delete_drink jwt' drink_id) s' = (resp2, s2) ->
    status resp2 = 200 /\ rows s2 = rows s.
Proof.
  intros jwt jwt' sent drink_id s resp s' resp2 s2 Hcreate H200 Hid Hup.
  assert (Hrows : exists t r,
             rows s' = (rows s ++ [{| id := fresh_id (rows s); title := t; recipe := r |}])%list).
  { revert Hcreate H200. walk; leaf; intros H200; try discriminate H200.
    destruct Hins as [_ Hins]. destruct Hall as [_ Hrows].
    do 2 eexists. rewrite Hrows. exact Hins. }
  destruct Hrows as (t & r & Hrows).
  set (new := {| id := fresh_id (rows s); title := t; recipe := r |}) in *.
  assert (Hold : filter (matches drink_id) (rows s) = []).
  { apply no_match. intros x Hx E. apply (fresh_id_fresh (rows s)).
    apply in_map_iff. exists x. split; [congruence | assumption]. }
  assert (Hone : filter (matches drink_id) (rows s') = [new]).
  { rewrite Hrows, filter_app, Hold. cbn. unfold matches. rewrite Hid.
    cbn [id new]. now rewrite Z.eqb_refl. }
  destruct (lookup_answers 1 drink_id s' Hup) as (s1 & Hfind & Hrows1 & Hup1).
  destruct (delete_answers 0 new s1 Hup1) as (s3 & Hdel & Hrows3).
  unfold dispatch, delete_drink. monad_cbn.
  rewrite Hfind, Hone. unfold one_or_none. monad_cbn. rewrite Hdel. monad_cbn.
  leaf. split; [reflexivity|].
  rewrite Hrows3, Hrows1, Hrows, filter_app. subst new. cbn [id filter].
  rewrite (none_match_others drink_id _ _ Hid Hold).
  unfold other_than. cbn [id]. rewrite Z.eqb_refl. cbn. apply app_nil_r.
Qed.

(** X11. In a reachable store, the database answering, a delete answers
    200 when a stored drink has the id of the path and 404 when none has;
    it never answers 500 there. *)
Theorem delete_outcome_reachable : forall jwt drink_id s,
    reachable s ->
    answers 2 s ->
    let resp := fst (dispatch (delete_drink jwt drink_id) s) in
    (exists d, In d (rows s) /\ id_of_path drink_id = Some (id d) /\ status resp = 200)
    \/ ((forall d, In d (rows s) -> id_of_path drink_id <> Some (id d))
        /\ resp = not_found).
Proof.
  intros jwt drink_id s Hreach Hup. cbv zeta.
  apply reachable_invariant in Hreach as [Hu _].
  destruct (lookup_answers 1 drink_id s Hup) as (s1 & Hfind & Hrows & Hup1).
  unfold dispatch, delete_drink. monad_cbn. rewrite Hfind.
  destruct (filter (matches drink_id) (rows s)) as [|d rest] eqn:E.
  - right. unfold one_or_none. monad_cbn. cbn. split; [|reflexivity].
    intros d Hd Hid.
    assert (Hin : In d (filter (matches drink_id) (rows s))).
    { apply filter_In. split; [assumption|]. unfold matches. rewrite Hid.
      apply Z.eqb_refl. }
    rewrite E in Hin. contradiction.
  - left. destruct (found_row _ _ _ _ E) as [Hin Hid]. exists d.
    split; [assumption|]. split; [assumption|].
    rewrite (one_match _ _ _ Hu Hin Hid) in E. inversion E; subst.
    unfold one_or_none. monad_cbn.
    destruct (delete_answers 0 d s1 Hup1) as (s2 & Hdel & _).
    rewrite Hdel. reflexivity.
Qed.

(** X12. With the database not answering, every request leaves the store
    as it was.  The listings answer 500 with the JSON body of their guarded
    block, a create with a JSON object for a body 500 with the JSON body of
    its own, a create whose body cannot be parsed 400, before it goes to the
    store, and an update, a delete and a create with another body 500 with
    Flask's page. *)
Theorem outage_responses : forall r s,
    uptime s = Some O ->
    dispatch (view_of r) s
    = (match r with
       | GetDrinks | GetDrinkDetails _ =>
           {| status := 500;
              content := Json (JObj [("success", JBool false);
                                     ("error", JStr "An error occurred")]) |}
       | PostDrink _ (Parsed (JObj _)) =>
           {| status := 500;
              content := Json (JObj [("success", JBool false);
                                     ("error", JStr "An error occured")]) |}
       | PostDrink _ Unparsable =>
           {| status := 400;
              content := Json (JObj [("success", JBool false); ("error", JNum 400);
                                     ("message", JStr "Bad request")]) |}
       | _ => {| status := 500; content := ErrorPage |}
       end, s).
Proof.
  intros r s H.
  destruct r as [|jwt|jwt sent|jwt drink_id sent|jwt drink_id]; cbn [view_of].
  - apply (outage_listings JNull s H).
  - apply (outage_listings jwt s H).
  - destruct sent as [data|]; [|reflexivity].
    destruct data; try reflexivity. apply (outage_create jwt fields s H).
  - apply (outage_lookup jwt drink_id sent s H).
  - apply (outage_lookup jwt drink_id Unparsable s H).
Qed.

(** X13. The brief listing is all or nothing: when the projection of one
    stored drink raises, the listing answers 500 with its JSON error body
    and lists no drink at all. *)
Theorem brief_listing_all_or_nothing : forall s e,
    comprehension Drink_short (rows s) = Raise e ->
    fst (dispatch get_drinks s) = store_error "An error occurred"
    /\ listed (fst (dispatch get_drinks s)) = [].
Proof.
  intros s e Hraise.
  destruct (dispatch get_drinks s) as [resp s'] eqn:E. revert E. cbn [fst].
  walk; leaf; try (split; reflexivity).
  destruct Hall as [-> _]. congruence.
Qed.

(** X14. The handlers registered for 400, 404 and 422 answer with the
    status they are registered for, that status as the [error] of a JSON
    body and [success] false. *)
Theorem abort_handlers_echo_status : forall e,
    exists message,
      errorhandler (HTTPException e)
      = (let code := match e with
                     | BadRequest => 400
                     | NotFound => 404
                     | UnprocessableEntity => 422
                     end in
         {| status := code;
            content := Json (JObj [("success", JBool false); ("error", JNum code);
                                   ("message", JStr message)]) |}).
Proof.
  intros []; eexists; reflexivity.
Qed.

Lemma filter_map_same : forall (f : Drink -> Drink) (p : Drink -> bool) l,
    (forall x, p (f x) = p x) -> filter p (map f l) = map f (filter p l).
Proof.
  intros f p l H. induction l as [|x l IH]; cbn; [reflexivity|].
  rewrite H, IH. now destruct (p x).
Qed.

Lemma overwrite_twice : forall d l,
    map (fun x => if id x =? id d then d else x)
        (map (fun x => if id x =? id d then d else x) l)
    = map (fun x => if id x =? id d then d else x) l.
Proof.
  intros d l. rewrite map_map. apply map_ext. intros x.
  destruct (Z.eqb_spec (id x) (id d)) as [E|E].
  - now rewrite Z.eqb_refl.
  - destruct (Z.eqb_spec (id x) (id d)); [contradiction | reflexivity].
Qed.

Lemma overwrite_others : forall d l,
    filter (other_than (id d)) (map (fun x => if id x =? id d then d else x) l)
    = filter (other_than (id d)) l.
Proof.
  intros d l. rewrite filter_map_same.
  - apply overwrite_absent. apply others_removed.
  - intros x. unfold other_than.
    destruct (id x =? id d) eqn:E; [now rewrite Z.eqb_refl | now rewrite E].
Qed.

(** X15. Updating twice: after an update that answered 200, the same
    update again, the database answering, answers 200 with the same body
    and leaves the table as the first one left it. *)
Theorem update_twice : forall jwt jwt' drink_id sent s resp s' resp2 s2,
    dispatch (update_drink jwt drink_id sent) s = (resp, s') ->
    status resp = 200 ->
    answers 3 s' ->
    dispatch (update_drink jwt' drink_id sent) s' = (resp2, s2) ->
    status resp2 = 200 /\ content resp2 = content resp /\ rows s2 = rows s'.
Proof.
  intros jwt jwt' drink_id sent s resp s' resp2 s2 Hfirst H200 Hup.
  assert (Hfacts : exists data d t r,
             let d' := {| id := id d; title := t; recipe := json_dumps r |} in
             sent = Parsed data
             /\ id_of_path drink_id = Some (id d)
             /\ filter (matches drink_id) (rows s) = [d]
             /\ py_get data "title" = Ok t /\ py_get data "recipe" = Ok r
             /\ title_taken t (filter (other_than (id d)) (rows s)) = false
             /\ rows s' = map (fun x => if id x =? id d' then d' else x) (rows s)
             /\ content resp = Json (JObj [("success", JBool true);
                                           ("drinks", JArr (map Drink_long (rows s')))])).
  { revert Hfirst H200. walk; leaf; intros H200; try discriminate H200.
    destruct Hupd as [Hfree Hupd]. destruct Hall as [-> Hrows].
    destruct (found_row _ _ _ _ Efound) as [_ Hid].
    cbn [id title] in *. do 4 eexists. cbv zeta. cbn [id].
    repeat split; try eassumption; congruence. }
  destruct Hfacts as (data & d & t & r & -> & Hid & Hone & Ht & Hr & Hfree & Hrows & Hbody).
  cbv zeta in Hrows.
  remember {| id := id d; title := t; recipe := json_dumps r |} as d' eqn:Ed'.
  assert (Hidd : id d' = id d) by (subst d'; reflexivity).
  assert (Htitle : title d' = t) by (subst d'; reflexivity).
  assert (Hd' : {| id := id d'; title := t; recipe := json_dumps r |} = d')
    by (subst d'; reflexivity).
  rewrite <- Hidd in Hid, Hfree. rewrite <- Htitle in Hfree.
  assert (Hone' : filter (matches drink_id) (rows s') = [d']).
  { rewrite Hrows, filter_map_same, Hone.
    - cbn [map]. now rewrite <- Hidd, Z.eqb_refl.
    - intros x. unfold matches. rewrite Hid.
      destruct (id x =? id d') eqn:E; [now rewrite Z.eqb_refl | now rewrite E]. }
  assert (Hfree' : title_taken (title d') (filter (other_than (id d')) (rows s')) = false).
  { rewrite Hrows, overwrite_others. exact Hfree. }
  destruct (lookup_answers 2 drink_id s' Hup) as (s1 & Hfind & Hrows1 & Hup1).
  unfold dispatch, update_drink. monad_cbn.
  rewrite Hfind, Hone'. unfold one_or_none. monad_cbn.
  rewrite Ht, Hr. monad_cbn. rewrite Hd'.
  destruct (update_answers 1 d' s1 Hup1) as (s3 & Hupd & Hup3);
    [now rewrite Hrows1|].
  pose proof (Drink_update_spec d' s1) as Hspec. rewrite Hupd in Hspec.
  destruct Hspec as [_ Hrows3]. rewrite Hupd.
  destruct (query_all_answers 0 s3 Hup3) as (s4 & Hall & Hrows4 & _).
  rewrite Hall. leaf.
  assert (Hsame : rows s3 = rows s').
  { rewrite Hrows3, Hrows1, Hrows. apply overwrite_twice. }
  repeat split.
  - rewrite Hbody, Hsame. reflexivity.
  - congruence.
Qed.

End Api.

(** ** The gate *)

Section GateProperties.

Variable key : Type.
Variable trusted_key : string -> option key.
Variable verify : key -> string -> option json.
Variable permissions_of : json -> option (list string).
Variable code_of : failure -> json.
Variable description_of : failure -> string.

Lemma authorize_fails : forall authorization required k,
    fails_with key trusted_key verify permissions_of authorization required k ->
    authorize key trusted_key verify permissions_of code_of description_of
      authorization required
    = Raise (auth_error code_of description_of k).
Proof.
  intros authorization required k H. unfold authorize.
  destruct H as [Hh|t Hh Hk|t key0 Hh Hk Hv|t key0 p Hh Hk Hv Hp|t key0 p g Hh Hk Hv Hp Hs];
    rewrite Hh; try rewrite Hk; try rewrite Hv; try rewrite Hp; try reflexivity.
  destruct (existsb (String.eqb required) g) eqn:E; [|reflexivity].
  apply existsb_exists in E as (x & Hx & E). apply String.eqb_eq in E.
  subst x. contradiction.
Qed.

(** C9. A request that the gate of a route refuses is answered, whatever
    the view behind the gate, with the fixed status of the failure (401
    for the header, the key and the verification, 400 for the absent
    permission claim, 403 for the scope that is not granted) and with the
    body [{success: false, error: <code>, description: <text>}]; the store
    is not touched. *)
Theorem gate_failure_response : forall permission f authorization s k,
    fails_with key trusted_key verify permissions_of authorization permission k ->
    dispatch
      (requires_auth key trusted_key verify permissions_of code_of description_of
         permission f authorization) s
    = ({| status := match k with
                    | MalformedHeader | UnknownKey | InvalidToken => 401
                    | MissingPermissionsClaim => 400
                    | InsufficientScope => 403
                    end;
          content := Json (JObj [("success", JBool false);
                                 ("error", code_of k);
                                 ("description", JStr (description_of k))]) |},
       s).
Proof.
  intros permission f authorization s k H.
  unfold dispatch, requires_auth, lift. cbn [bind Monad_M].
  rewrite (authorize_fails _ _ _ H). reflexivity.
Qed.

End GateProperties.

(** ** The application behind its gate *)

Section AppProperties.

Variable id_of_path : string -> option Z.
Variable key : Type.
Variable trusted_key : string -> option key.
Variable verify : key -> string -> option json.
Variable permissions_of : json -> option (list string).
Variable code_of : failure -> json.
Variable description_of : failure -> string.

Lemma authorize_ok : forall authorization required payload,
    authorize key trusted_key verify permissions_of code_of description_of
      authorization required = Ok payload ->
    exists granted, permissions_of payload = Some granted /\ In required granted.
Proof.
  intros authorization required payload. unfold authorize.
  destruct (bearer_token authorization) as [token|]; [|discriminate].
  destruct (trusted_key token) as [k|]; [|discriminate].
  destruct (verify k token) as [p|]; [|discriminate].
  destruct (permissions_of p) as [granted|] eqn:Ep; [|discriminate].
  destruct (existsb (String.eqb required) granted) eqn:E; [|discriminate].
  intros H. inversion H; subst. exists granted. split; [assumption|].
  apply existsb_exists in E as (x & Hx & E). apply String.eqb_eq in E. now subst.
Qed.

Lemma gated_rows : forall permission f authorization s,
    rows (snd (dispatch
                 (requires_auth key trusted_key verify permissions_of code_of
                    description_of permission f authorization) s)) <> rows s ->
    exists payload,
      authorize key trusted_key verify permissions_of code_of description_of
        authorization permission = Ok payload
      /\ rows (snd (dispatch (f payload) s)) <> rows s.
Proof.
  intros permission f authorization s. unfold dispatch at 1, requires_auth, lift.
  cbn [bind Monad_M].
  destruct (authorize _ _ _ _ _ _ authorization permission) as [payload|e].
  - intros H. exists payload. split; [reflexivity|]. exact H.
  - cbn. intros H. now destruct H.
Qed.

(** X16. No write without the permission: a request through the
    application changes the table only when it is a create, an update or a
    delete, and the gate accepted a payload whose granted permissions hold
    [post:drinks], [patch:drinks] or [delete:drinks] respectively; the two
    listings never change it, whatever the gate grants. *)
Theorem writes_need_permission : forall r authorization s,
    rows (snd (dispatch
                 (app id_of_path
                    (requires_auth key trusted_key verify permissions_of code_of
                       description_of) r authorization) s)) <> rows s ->
    exists permission payload granted,
      ((exists sent, r = Drinks_POST sent) /\ permission = "post:drinks"
       \/ (exists drink_id sent, r = Drinks_PATCH drink_id sent)
          /\ permission = "patch:drinks"
       \/ (exists drink_id, r = Drinks_DELETE drink_id)
          /\ permission = "delete:drinks")
      /\ authorize key trusted_key verify permissions_of code_of description_of
           authorization permission = Ok payload
      /\ permissions_of payload = Some granted
      /\ In permission granted.
Proof.
  intros r authorization s H. destruct r; cbn [app] in *.
  - destruct H. apply (get_drinks_rows s).
  - apply gated_rows in H as (payload & _ & H).
    destruct H. apply get_drink_details_rows.
  - apply gated_rows in H as (payload & Hok & _).
    destruct (authorize_ok _ _ _ Hok) as (granted & Hp & Hin).
    exists "post:drinks", payload, granted. repeat split; try assumption.
    left. split; [eauto | reflexivity].
  - apply gated_rows in H as (payload & Hok & _).
    destruct (authorize_ok _ _ _ Hok) as (granted & Hp & Hin).
    exists "patch:drinks", payload, granted. repeat split; try assumption.
    right. left. split; [eauto | reflexivity].
  - apply gated_rows in H as (payload & Hok & _).
    destruct (authorize_ok _ _ _ Hok) as (granted & Hp & Hin).
    exists "delete:drinks", payload, granted. repeat split; try assumption.
    right. right. split; [eauto | reflexivity].
Qed.

End AppProperties.

(** ** The properties on the sample data *)

Lemma open_store_reachable : reachable decimal open_store.
Proof.
  change open_store with
    (snd (dispatch (view_of decimal (PostDrink JNull (Parsed latte_body)))
            (snd (dispatch (view_of decimal (PostDrink JNull (Parsed espresso_body)))
                    empty_store)))).
  do 2 apply reachable_request. apply reachable_empty.
Qed.

Lemma menu_unique_ids : unique_ids (rows open_store).
Proof.
  unfold unique_ids. cbn. repeat constructor; cbn; intuition discriminate.
Qed.

Lemma create_update_return_collection_witness :
  let run := dispatch (view_of decimal (PostDrink JNull (Parsed mocha_body))) open_store in
  status (fst run) = 200
  /\ List.length (rows (snd run)) = 3%nat
  /\ content (fst run) =
       Json (JObj [("success", JBool true);
                   ("drinks", JArr (map Drink_long (rows (snd run))))]).
Proof.
  intros run. split; [reflexivity|]. split; [reflexivity|].
  apply (create_update_return_collection decimal (PostDrink JNull (Parsed mocha_body))
           open_store (fst run) (snd run)).
  - reflexivity.
  - apply surjective_pairing.
  - reflexivity.
Defined.

Lemma update_nulls_omitted_fields_witness :
  let run := dispatch (update_drink decimal JNull "1" (Parsed (JObj []))) open_store in
  status (fst run) = 200
  /\ exists d d',
      In d (rows open_store) /\ decimal "1" = Some (id d) /\
      In d' (rows (snd run)) /\ id d' = id d /\
      (forall x, In x (rows (snd run)) -> id x = id d -> x = d') /\
      (dict_get "title" [] = None -> title d' = JNull) /\
      (dict_get "recipe" [] = None -> recipe d' = json_dumps JNull).
Proof.
  intros run. split; [reflexivity|].
  apply (update_nulls_omitted_fields decimal JNull "1" [] open_store (fst run) (snd run)).
  - apply surjective_pairing.
  - reflexivity.
Defined.

Example update_without_fields_run :
  rows (snd (dispatch (update_drink decimal JNull "1" (Parsed (JObj []))) open_store))
  = [{| id := 1; title := JNull; recipe := json_dumps JNull |}; latte].
Proof. reflexivity. Qed.

Lemma espresso_has_title : title espresso <> JNull.
Proof. discriminate. Qed.

Lemma titles_stay_unique_witness :
  let run := dispatch (post_drink JNull (Parsed espresso_body)) open_store in
  reachable decimal open_store
  /\ unique_titles (rows open_store)
  /\ status (fst run) = 500
  /\ content (fst run) = Json (JObj [("success", JBool false);
                                     ("error", JStr "An error occured")])
  /\ rows (snd run) = rows open_store
  /\ unique_titles (rows (snd run)).
Proof.
  intros run. split; [exact open_store_reachable|].
  destruct (titles_stay_unique decimal open_store open_store_reachable) as [Hu Hc].
  split; [exact Hu|].
  apply (Hc JNull espresso_body espresso (fst run) (snd run)).
  - left. reflexivity.
  - exact espresso_has_title.
  - reflexivity.
  - apply surjective_pairing.
Defined.

(** C3, as the specification states it, fails: two creates without a title
    both answer 200 and leave, in a reachable store, two drinks with the
    same title, null; the second create has the title of a stored drink and
    is not answered 500. *)
Lemma null_titles_repeat :
  let first := dispatch (view_of decimal (PostDrink JNull (Parsed (JObj [])))) empty_store in
  let second := dispatch (view_of decimal (PostDrink JNull (Parsed (JObj [])))) (snd first) in
  reachable decimal (snd second)
  /\ status (fst first) = 200
  /\ py_get (JObj []) "title" = Ok JNull
  /\ map title (rows (snd first)) = [JNull]
  /\ status (fst second) = 200
  /\ map title (rows (snd second)) = [JNull; JNull]
  /\ ~ NoDup (map title (rows (snd second))).
Proof.
  intros first second. split.
  - do 2 apply reachable_request. apply reachable_empty.
  - repeat split; try reflexivity.
    intros H. inversion H as [|? ? Hx _]. apply Hx. left. reflexivity.
Qed.

Lemma no_drink_7 : forall d, In d (rows open_store) -> decimal "7" <> Some (id d).
Proof.
  intros d [<- | [<- | []]]; vm_compute; discriminate.
Qed.

Lemma update_unknown_id_witness :
  let run := dispatch (update_drink decimal JNull "7" (Parsed latte_body)) open_store in
  answers 1 open_store
  /\ rows (snd run) = rows open_store
  /\ fst run = not_found /\ status (fst run) = 404.
Proof.
  intros run. split; [exact I|].
  apply (update_unknown_id decimal JNull "7" (Parsed latte_body) open_store
           (fst run) (snd run)).
  - exact I.
  - exact no_drink_7.
  - apply surjective_pairing.
Defined.

(** C4, as the specification states it, fails: an update under an id that
    no stored drink has, with a body that cannot be parsed, is answered 400
    and not 404. *)
Lemma update_unknown_id_unparsable :
  (forall d, In d (rows open_store) -> decimal "7" <> Some (id d))
  /\ fst (dispatch (update_drink decimal JNull "7" Unparsable) open_store) = bad_request
  /\ status (fst (dispatch (update_drink decimal JNull "7" Unparsable) open_store)) = 400
  /\ status (fst (dispatch (update_drink decimal JNull "7" Unparsable) open_store)) <> 404.
Proof.
  split; [exact no_drink_7|]. repeat split. discriminate.
Qed.

Lemma delete_unknown_id_witness :
  let run := dispatch (delete_drink decimal JNull "7") open_store in
  answers 1 open_store
  /\ fst run = not_found /\ status (fst run) = 404
  /\ rows (snd run) = rows open_store.
Proof.
  intros run. split; [exact I|].
  apply (delete_unknown_id decimal JNull "7" open_store (fst run) (snd run)).
  - exact I.
  - exact no_drink_7.
  - apply surjective_pairing.
Defined.

Lemma delete_removes_drink_witness :
  let run := dispatch (delete_drink decimal JNull "1") open_store in
  In espresso (rows open_store)
  /\ decimal "1" = Some (id espresso)
  /\ status (fst (dispatch get_drinks (snd run))) = 200
  /\ List.length (listed (fst (dispatch get_drinks (snd run)))) = 1%nat
  /\ status (fst (dispatch (get_drink_details JNull) (snd run))) = 200
  /\ status (fst run) = 200
  /\ content (fst run) = Json (JObj [("success", JBool true); ("delete", JStr "1")])
  /\ content (fst run)
     <> Json (JObj [("success", JBool true); ("delete", JNum (id espresso))])
  /\ ~ lists_id (id espresso) (fst (dispatch get_drinks (snd run)))
  /\ forall jwt', ~ lists_id (id espresso) (fst (dispatch (get_drink_details jwt') (snd run))).
Proof.
  intros run. split; [left; reflexivity|]. do 4 (split; [reflexivity|]).
  apply (delete_removes_drink decimal JNull "1" espresso open_store (fst run) (snd run)).
  - exact I.
  - exact menu_unique_ids.
  - left. reflexivity.
  - reflexivity.
  - apply surjective_pairing.
Defined.

Example delete_echoes_path :
  decimal "01" = Some 1
  /\ dispatch (delete_drink decimal JNull "01") open_store
     = (respond (JObj [("success", JBool true); ("delete", JStr "01")]) 200,
        {| rows := [latte]; uptime := None |}).
Proof. split; reflexivity. Qed.

Lemma delete_removes_only_target_witness :
  let run := dispatch (delete_drink decimal JNull "2") open_store in
  status (fst run) = 200
  /\ exists before d after,
      rows open_store = (before ++ d :: after)%list
      /\ decimal "2" = Some (id d)
      /\ rows (snd run) = (before ++ after)%list.
Proof.
  intros run. split; [reflexivity|].
  apply (delete_removes_only_target decimal JNull "2" open_store (fst run) (snd run)).
  - apply surjective_pairing.
  - reflexivity.
Defined.

Lemma menu_plain : forall d,
    In d (rows open_store) -> plain_recipe (json_loads (recipe d)) = true.
Proof.
  intros d [<- | [<- | []]]; reflexivity.
Qed.

Lemma brief_is_detailed_without_names_witness :
  status (fst (dispatch get_drinks open_store)) = 200
  /\ List.length (listed (fst (dispatch get_drinks open_store))) = 2%nat
  /\ status (fst (dispatch get_drinks open_store))
     = status (fst (dispatch (get_drink_details JNull) open_store))
  /\ listed (fst (dispatch get_drinks open_store))
     = map without_names (listed (fst (dispatch (get_drink_details JNull) open_store))).
Proof.
  split; [reflexivity|]. split; [reflexivity|].
  apply (brief_is_detailed_without_names JNull open_store). exact menu_plain.
Defined.

Lemma barista_may_not_delete :
  fails_with unit (fun _ => Some tt) (fun _ token => Some (JStr token))
    barista_permissions (Some "Bearer barista") "delete:drinks" InsufficientScope.
Proof.
  apply (scope_fails _ _ _ _ _ _ "barista" tt (JStr "barista") ["get:drinks-detail"]);
    try reflexivity.
  cbn. intuition discriminate.
Qed.

Lemma gate_failure_response_witness :
  dispatch
    (requires_auth unit (fun _ => Some tt) (fun _ token => Some (JStr token))
       barista_permissions failure_code (fun _ => "Permission not found.")
       "delete:drinks" (fun jwt => delete_drink decimal jwt "1")
       (Some "Bearer barista"))
    open_store
  = ({| status := 403;
        content := Json (JObj [("success", JBool false);
                               ("error", JStr "unauthorized");
                               ("description", JStr "Permission not found.")]) |},
     open_store).
Proof.
  apply (gate_failure_response unit (fun _ => Some tt) (fun _ token => Some (JStr token))
           barista_permissions failure_code (fun _ => "Permission not found.")
           "delete:drinks" (fun jwt => delete_drink decimal jwt "1")
           (Some "Bearer barista") open_store InsufficientScope).
  exact barista_may_not_delete.
Defined.

(** C8, as the specification states it, fails: a drink created through the
    API with an ingredient that carries a field more is listed by both
    listings with status 200, and the brief listing, which keeps the color and
    the parts only, is not the detailed one without the names, which keeps
    the further field. *)
Lemma brief_differs_on_extra_field :
  let s := snd (dispatch (post_drink JNull (Parsed cortado_body)) empty_store) in
  status (fst (dispatch get_drinks s)) = 200
  /\ status (fst (dispatch (get_drink_details JNull) s)) = 200
  /\ listed (fst (dispatch get_drinks s))
     <> map without_names (listed (fst (dispatch (get_drink_details JNull) s))).
Proof.
  intros s. split; [reflexivity|]. split; [reflexivity|].
  vm_compute. discriminate.
Qed.

(** C7. With the database not answering, the two listings answer 500 with
    the body of the specification, the create answers 500 with another
    error text, and the update and the delete, whose lookup is outside the
    guarded block, answer 500 with Flask's error page; an update or a delete
    whose lookup is answered and whose write is not, and a create of a taken
    title, answer 500 with the other error text too. *)
Theorem store_failure_bodies :
  let expected := Json (JObj [("success", JBool false);
                              ("error", JStr "An error occurred")]) in
  let misspelt := Json (JObj [("success", JBool false);
                              ("error", JStr "An error occured")]) in
  misspelt <> expected
  /\ fst (dispatch get_drinks closed_store)
     = {| status := 500; content := expected |}
  /\ fst (dispatch (get_drink_details JNull) closed_store)
     = {| status := 500; content := expected |}
  /\ fst (dispatch (post_drink JNull (Parsed mocha_body)) closed_store)
     = {| status := 500; content := misspelt |}
  /\ fst (dispatch (update_drink decimal JNull "1" (Parsed mocha_body)) closed_store)
     = {| status := 500; content := ErrorPage |}
  /\ fst (dispatch (delete_drink decimal JNull "1") closed_store)
     = {| status := 500; content := ErrorPage |}
  /\ fst (dispatch (update_drink decimal JNull "1" (Parsed mocha_body)) closing_store)
     = {| status := 500; content := misspelt |}
  /\ fst (dispatch (delete_drink decimal JNull "1") closing_store)
     = {| status := 500; content := misspelt |}
  /\ fst (dispatch (post_drink JNull (Parsed espresso_body)) open_store)
     = {| status := 500; content := misspelt |}.
Proof.
  cbv zeta. split; [discriminate|]. repeat split; vm_compute; reflexivity.
Qed.

(** ** The further properties on the sample data *)

Lemma listings_keep_rows_witness :
  lists GetDrinks = true
  /\ rows (snd (dispatch (view_of decimal GetDrinks) closing_store)) = rows closing_store.
Proof.
  split; [reflexivity|].
  apply (listings_keep_rows decimal GetDrinks closing_store). reflexivity.
Defined.

Lemma listing_lists_every_drink_witness :
  let run := dispatch (view_of decimal GetDrinks) open_store in
  status (fst run) = 200
  /\ map id_field (listed (fst run)) = [Some (JNum 1); Some (JNum 2)].
Proof.
  intros run. split; [reflexivity|].
  apply (listing_lists_every_drink decimal GetDrinks open_store (fst run) (snd run)).
  - reflexivity.
  - apply surjective_pairing.
  - reflexivity.
Defined.

Lemma view_status_codes_witness :
  let code := status (fst (dispatch (view_of decimal (DeleteDrink JNull "7")) open_store)) in
  let code' := status (fst (dispatch (view_of decimal (PostDrink JNull Unparsable)) open_store)) in
  code = 404
  /\ (exists drink_id,
        target (DeleteDrink JNull "7") = Some drink_id
        /\ filter (matches decimal drink_id) (rows open_store) = [])
  /\ code' = 400
  /\ sent_body (PostDrink JNull Unparsable) = Some Unparsable.
Proof.
  intros code code'. split; [reflexivity|]. split.
  - apply (proj2 (proj2 (view_status_codes decimal (DeleteDrink JNull "7") open_store))).
    reflexivity.
  - split; [reflexivity|].
    apply (proj1 (proj2 (view_status_codes decimal (PostDrink JNull Unparsable) open_store))).
    reflexivity.
Defined.

Lemma create_appends_row_witness :
  let run := dispatch (post_drink JNull (Parsed mocha_body)) open_store in
  status (fst run) = 200
  /\ exists data n t r,
      Parsed mocha_body = Parsed data
      /\ py_get data "title" = Ok t /\ py_get data "recipe" = Ok r
      /\ ~ In n (map id (rows open_store))
      /\ rows (snd run)
         = (rows open_store ++ [{| id := n; title := t; recipe := json_dumps r |}])%list
      /\ In (JObj [("id", JNum n); ("title", t); ("recipe", r)]) (listed (fst run)).
Proof.
  intros run. split; [reflexivity|].
  apply (create_appends_row JNull (Parsed mocha_body) open_store (fst run) (snd run)).
  - apply surjective_pairing.
  - reflexivity.
Defined.

Lemma update_changes_only_target_witness :
  let run := dispatch (update_drink decimal JNull "1" (Parsed mocha_body)) open_store in
  status (fst run) = 200
  /\ map id (rows (snd run)) = map id (rows open_store)
  /\ exists data d' r,
      Parsed mocha_body = Parsed data
      /\ py_get data "title" = Ok (title d')
      /\ py_get data "recipe" = Ok r /\ recipe d' = json_dumps r
      /\ rows (snd run)
         = map (fun x => if matches decimal "1" x then d' else x) (rows open_store).
Proof.
  intros run. split; [reflexivity|].
  apply (update_changes_only_target decimal JNull "1" (Parsed mocha_body) open_store
           (fst run) (snd run)).
  - apply surjective_pairing.
  - reflexivity.
Defined.

Lemma create_may_fail_after_writing_witness :
  let run := dispatch (post_drink JNull (Parsed mocha_body)) closing_store in
  uptime closing_store = Some 1%nat
  /\ status (fst run) = 500
  /\ content (fst run) = Json (JObj [("success", JBool false);
                                     ("error", JStr "An error occured")])
  /\ exists r,
      rows (snd run)
      = (rows closing_store
           ++ [{| id := fresh_id (rows closing_store); title := JStr "Mocha";
                  recipe := r |}])%list.
Proof.
  intros run. split; [reflexivity|].
  apply (create_may_fail_after_writing JNull
           [("title", JStr "Mocha");
            ("recipe", JArr [ingredient "chocolate" "black" 1;
                             ingredient "milk" "white" 2])]
           (JStr "Mocha") closing_store (fst run) (snd run)).
  - reflexivity.
  - reflexivity.
  - reflexivity.
  - apply surjective_pairing.
Defined.

Lemma null_is_no_object : forall fields, JNull <> JObj fields.
Proof. intros fields H. discriminate H. Qed.

Lemma non_object_body_witness :
  dispatch (post_drink JNull (Parsed JNull)) open_store
  = ({| status := 500; content := ErrorPage |}, open_store)
  /\ dispatch (post_drink JNull Unparsable) open_store = (bad_request, open_store)
  /\ status (fst (dispatch (update_drink decimal JNull "1" (Parsed JNull)) open_store)) <> 200
  /\ rows (snd (dispatch (update_drink decimal JNull "1" (Parsed JNull)) open_store))
     = rows open_store.
Proof.
  apply (non_object_body decimal JNull "1" JNull open_store). exact null_is_no_object.
Defined.

Lemma delete_twice_witness :
  let first := dispatch (delete_drink decimal JNull "1") open_store in
  let second := dispatch (delete_drink decimal JNull "1") (snd first) in
  status (fst first) = 200
  /\ fst second = not_found /\ rows (snd second) = rows (snd first).
Proof.
  intros first second. split; [reflexivity|].
  apply (delete_twice decimal JNull JNull "1" open_store (fst first) (snd first)
           (fst second) (snd second)).
  - apply surjective_pairing.
  - reflexivity.
  - exact I.
  - apply surjective_pairing.
Defined.

Lemma create_then_delete_restores_witness :
  let first := dispatch (post_drink JNull (Parsed mocha_body)) open_store in
  let second := dispatch (delete_drink decimal JNull "3") (snd first) in
  status (fst first) = 200
  /\ decimal "3" = Some (fresh_id (rows open_store))
  /\ status (fst second) = 200 /\ rows (snd second) = rows open_store.
Proof.
  intros first second. split; [reflexivity|]. split; [reflexivity|].
  apply (create_then_delete_restores decimal JNull JNull (Parsed mocha_body) "3" open_store
           (fst first) (snd first) (fst second) (snd second)).
  - apply surjective_pairing.
  - reflexivity.
  - reflexivity.
  - exact I.
  - apply surjective_pairing.
Defined.

Lemma delete_outcome_reachable_witness :
  let resp := fst (dispatch (delete_drink decimal JNull "2") open_store) in
  (exists d, In d (rows open_store) /\ decimal "2" = Some (id d) /\ status resp = 200)
  \/ ((forall d, In d (rows open_store) -> decimal "2" <> Some (id d))
      /\ resp = not_found).
Proof.
  apply (delete_outcome_reachable decimal JNull "2" open_store).
  - exact open_store_reachable.
  - exact I.
Defined.

Lemma outage_responses_witness :
  uptime closed_store = Some O
  /\ dispatch (view_of decimal (UpdateDrink JNull "1" (Parsed mocha_body))) closed_store
     = ({| status := 500; content := ErrorPage |}, closed_store).
Proof.
  split; [reflexivity|].
  apply (outage_responses decimal (UpdateDrink JNull "1" (Parsed mocha_body)) closed_store).
  reflexivity.
Defined.

Lemma brief_listing_all_or_nothing_witness :
  comprehension Drink_short (rows unnamed_store) = Raise TypeError
  /\ fst (dispatch get_drinks unnamed_store) = store_error "An error occurred"
  /\ listed (fst (dispatch get_drinks unnamed_store)) = [].
Proof.
  split; [reflexivity|].
  apply (brief_listing_all_or_nothing unnamed_store TypeError). reflexivity.
Defined.

Lemma update_twice_witness :
  let first := dispatch (update_drink decimal JNull "1" (Parsed mocha_body)) open_store in
  let second := dispatch (update_drink decimal JNull "1" (Parsed mocha_body)) (snd first) in
  status (fst first) = 200
  /\ status (fst second) = 200
  /\ content (fst second) = content (fst first)
  /\ rows (snd second) = rows (snd first).
Proof.
  intros first second. split; [reflexivity|].
  apply (update_twice decimal JNull JNull "1" (Parsed mocha_body) open_store
           (fst first) (snd first) (fst second) (snd second)).
  - apply surjective_pairing.
  - reflexivity.
  - exact I.
  - apply surjective_pairing.
Defined.

Lemma manager_creates :
  rows (snd (dispatch
               (app decimal
                  (requires_auth unit (fun _ => Some tt)
                     (fun _ token => Some (JStr token)) manager_permissions
                     failure_code (fun _ => "Permission not found."))
                  (Drinks_POST (Parsed mocha_body)) (Some "Bearer manager")) open_store))
  <> rows open_store.
Proof. vm_compute. discriminate. Qed.

Lemma writes_need_permission_witness :
  exists permission payload granted,
    ((exists sent, Drinks_POST (Parsed mocha_body) = Drinks_POST sent)
     /\ permission = "post:drinks"
     \/ (exists drink_id sent, Drinks_POST (Parsed mocha_body) = Drinks_PATCH drink_id sent)
        /\ permission = "patch:drinks"
     \/ (exists drink_id, Drinks_POST (Parsed mocha_body) = Drinks_DELETE drink_id)
        /\ permission = "delete:drinks")
    /\ authorize unit (fun _ => Some tt) (fun _ token => Some (JStr token))
         manager_permissions failure_code (fun _ => "Permission not found.")
         (Some "Bearer manager") permission = Ok payload
    /\ manager_permissions payload = Some granted
    /\ In permission granted.
Proof.
  apply (writes_need_permission decimal unit (fun _ => Some tt)
           (fun _ token => Some (JStr token)) manager_permissions failure_code
           (fun _ => "Permission not found.") (Drinks_POST (Parsed mocha_body))
           (Some "Bearer manager") open_store).
  exact manager_creates.
Defined.
